(** * RoboSanta: the [mos] portability headers

    The four files under verification are C headers:

    - [RoboSanta/mos/mos_basic_types-win.h]
    - [RoboSanta/mos/mos_os-SunOS-user.h]
    - [RoboSanta/mos/mos_os-Windows-user.h]
    - [RoboSantaApp/mos/mos_registry-Windows.h]

    A header is a program of the C preprocessor: it reads and updates the
    table of macros and it emits declarations.  Each header is embedded as a
    transformer of a preprocessor state, written with one combinator per
    directive, so that the embedding can be read next to the header line by
    line. *)

From stdpp Require Import gmap strings list fin_maps.
From Stdlib Require Import ZArith Lia.

Local Open Scope string_scope.
Local Open Scope list_scope.

(** ** C types and expressions, as far as the headers spell them *)

Inductive ctype : Type :=
| TVoid
| TChar
| TShort
| TInt
| TLong
| TFloat
| TMsInt (bits : nat)          (* __int8, __int16, __int32, __int64 *)
| TUnsigned (t : ctype)        (* unsigned char, unsigned __int64, ... *)
| TStruct (tag : string)
| TNamed (name : string)       (* a typedef name: uint32_t, DWORD, mosiop_t *)
| TConst (t : ctype)
| TPtr (t : ctype).

#[warnings="-register-all"]
Inductive cexpr : Type :=
| EId (x : string)
| ENum (n : Z)
| EParen (e : cexpr)
| ECast (t : ctype) (e : cexpr)
| EDeref (e : cexpr)
| ECall (f : string) (args : list cexpr).

(** A macro is object-like or function-like; a replacement list that is not
    an expression (a declaration specifier, a statement) is kept as text. *)
Inductive macro : Type :=
| MFlag                                          (* #define X *)
| MObj (body : cexpr)                            (* #define X e *)
| MObjText (body : string)
| MFun (params : list string) (body : cexpr)     (* #define f(a, b) e *)
| MFunText (params : list string) (body : string).

(** What a header leaves behind in the translation unit. *)
Inductive item : Type :=
| IInclude (file : string)
| IDefine (name : string) (m : macro)
| ITypedef (name : string) (t : ctype)
| IStaticConst (name : string) (elt : ctype) (init : list Z)
| IProto (attrs : list string) (ret : ctype) (name : string)
         (params : list ctype).

(** ** The preprocessor *)

Module Cpp.

Record penv : Type := PEnv {
  macros : gmap string macro;
  out : list item
}.

Definition PP : Type := penv -> penv.

Definition start (M : gmap string macro) : penv := PEnv M [].

Definition skip : PP := fun s => s.

Definition seq (p q : PP) : PP := fun s => q (p s).

Definition emit (i : item) : PP :=
  fun s => PEnv (macros s) (out s ++ [i]).

(** [#define]: the new definition replaces an older one of the same name. *)
Definition define (x : string) (m : macro) : PP :=
  fun s => PEnv (<[x := m]> (macros s)) (out s ++ [IDefine x m]).

Definition is_defined (x : string) (s : penv) : bool :=
  bool_decide (is_Some (macros s !! x)).

(** [#ifdef x ... #else ... #endif] *)
Definition ifdef (x : string) (p q : PP) : PP :=
  fun s => if is_defined x s then p s else q s.

(** [#ifndef x ... #else ... #endif] *)
Definition ifndef (x : string) (p q : PP) : PP :=
  fun s => if is_defined x s then q s else p s.

Definition typedef (x : string) (t : ctype) : PP := emit (ITypedef x t).

Definition static_const (x : string) (t : ctype) (init : list Z) : PP :=
  emit (IStaticConst x t init).

Definition proto (attrs : list string) (ret : ctype) (x : string)
    (params : list ctype) : PP :=
  emit (IProto attrs ret x params).

(** An included file that is not one of the four headers is known only by its
    effect on the macro table, [sys file]; the include itself is recorded. *)
Definition include (sys : string -> gmap string macro -> gmap string macro)
    (file : string) : PP :=
  fun s => PEnv (sys file (macros s)) (out s ++ [IInclude file]).

(** The included file neither defines nor undefines [x]. *)
Definition keeps (sys : string -> gmap string macro -> gmap string macro)
    (file x : string) : Prop :=
  forall M, is_Some (sys file M !! x) <-> is_Some (M !! x).

(** [<stdint.h>] gives these limits of the exact-width types. *)
Definition INT32_MAX : Z := 2147483647.
Definition INT64_MAX : Z := 9223372036854775807.

(** What a state says about a name. *)
Definition defines (x : string) (s : penv) : Prop :=
  exists m, IDefine x m ∈ out s.

Definition typedefs (x : string) (s : penv) : Prop :=
  exists t, ITypedef x t ∈ out s.

Definition declares (x : string) (s : penv) : Prop :=
  exists attrs ret params, IProto attrs ret x params ∈ out s.

(** Every item that [p] adds satisfies [P]. *)
Definition emits_only (P : item -> Prop) (p : PP) : Prop :=
  forall s, Forall P (out s) -> Forall P (out (p s)).

(** Expansion of a function-like macro invocation [f(a1, ..., an)], in one
    step: the arguments are put in as they are written and the result is not
    scanned again.  That is the whole expansion where neither the arguments
    nor the replacement list name a macro. *)
Fixpoint assoc (x : string) (l : list (string * cexpr)) : option cexpr :=
  match l with
  | [] => None
  | (y, e) :: l' => if decide (x = y) then Some e else assoc x l'
  end.

Fixpoint subst (σ : list (string * cexpr)) (e : cexpr) : cexpr :=
  match e with
  | EId x => match assoc x σ with Some a => a | None => EId x end
  | ENum n => ENum n
  | EParen e1 => EParen (subst σ e1)
  | ECast t e1 => ECast t (subst σ e1)
  | EDeref e1 => EDeref (subst σ e1)
  | ECall f args => ECall f (map (subst σ) args)
  end.

Definition expand_call (M : gmap string macro) (f : string)
    (args : list cexpr) : option cexpr :=
  match M !! f with
  | Some (MFun params body) =>
      if decide (length params = length args)
      then Some (subst (zip params args) body)
      else None
  | _ => None
  end.

(** The value of an object-like macro that stands for an integer constant,
    following the chain of definitions. *)
Fixpoint const_value (fuel : nat) (M : gmap string macro) (e : cexpr)
    : option Z :=
  match fuel with
  | O => None
  | S k =>
      match e with
      | ENum n => Some n
      | EParen e1 => const_value k M e1
      | EId x =>
          match M !! x with
          | Some (MObj b) => const_value k M b
          | _ => None
          end
      | _ => None
      end
  end.

End Cpp.

Import Cpp.

Notation "p >>> q" := (seq p q) (at level 62, right associativity).

(** ** The four headers *)

Module Headers.

Section WithIncludes.

(** The effect on the macro table of each included file that is not one of
    the four headers: the system headers and [mos_iop.h]. *)
Variable sys : string -> gmap string macro -> gmap string macro.

Definition MOSAPI_MOSCConv : list string := ["MOSAPI"; "MOSCConv"].

Definition const_char_ptr : ctype := TPtr (TConst TChar).
Definition uint32_ptr : ctype := TPtr (TNamed "uint32_t").

(** [RoboSantaApp/mos/mos_registry-Windows.h] *)
Definition mos_registry_Windows_h : PP :=
  ifndef "_MOS_REGISTRY_WINDOWS_H_" (
    define "_MOS_REGISTRY_WINDOWS_H_" MFlag >>>
    include sys "mos_iop.h" >>>
    proto MOSAPI_MOSCConv TInt "mos_registry_getmachinevalue"
      [TNamed "mosiop_t"; const_char_ptr; const_char_ptr;
       TPtr (TPtr TVoid); uint32_ptr; uint32_ptr; uint32_ptr] >>>
    proto MOSAPI_MOSCConv TInt "mos_registry_getu32"
      [TNamed "mosiop_t"; const_char_ptr; const_char_ptr; uint32_ptr;
       TNamed "uint32_t"] >>>
    ifndef "_KERNEL" (
      proto MOSAPI_MOSCConv TInt "mos_registry_setmachinevalue"
        [TNamed "mosiop_t"; const_char_ptr; const_char_ptr;
         TPtr (TConst TVoid); TNamed "uint32_t"]
    ) skip
  ) skip.

(** [RoboSanta/mos/mos_basic_types-win.h] *)
Definition mos_basic_types_win_h : PP :=
  ifndef "_MOS_BASE_TYPES_WIN_H_" (
    define "_MOS_BASE_TYPES_WIN_H_" MFlag >>>
    define "MOSImport" (MObjText "__declspec(dllimport)") >>>
    ifdef "WIN_WDK" (
      typedef "uint64_t" (TUnsigned (TMsInt 64)) >>>
      typedef "uint32_t" (TUnsigned (TMsInt 32)) >>>
      typedef "uint16_t" (TUnsigned (TMsInt 16)) >>>
      typedef "uint8_t" (TUnsigned (TMsInt 8)) >>>
      typedef "int64_t" (TMsInt 64) >>>
      typedef "int32_t" (TMsInt 32) >>>
      typedef "int16_t" (TMsInt 16) >>>
      typedef "int8_t" (TMsInt 8) >>>
      typedef "uintmax_t" (TNamed "uint64_t") >>>
      typedef "intmax_t" (TNamed "int64_t") >>>
      typedef "u_char" (TUnsigned TChar) >>>
      typedef "u_short" (TUnsigned TShort) >>>
      typedef "u_int" (TUnsigned TInt) >>>
      typedef "u_long" (TUnsigned TLong)
    ) (
      include sys "stdint.h"
    ) >>>
    define "NULL" (MObj (EParen (ECast (TPtr TVoid) (ENum 0)))) >>>
    ifndef "ssize_t" (
      ifdef "_WIN64" (
        typedef "ssize_t" (TNamed "int64_t") >>>
        define "SSIZE_MAX" (MObj (EId "INT64_MAX"))
      ) (
        typedef "ssize_t" (TNamed "int32_t") >>>
        define "SSIZE_MAX" (MObj (EId "INT32_MAX"))
      )
    ) skip >>>
    ifndef "NAN" (
      static_const "__nan" (TUnsigned TLong) [0xffffffff; 0x7fffffff]%Z >>>
      define "NAN"
        (MObj (EParen (EDeref (ECast (TPtr (TConst TFloat)) (EId "__nan")))))
    ) skip
  ) skip.

(** [RoboSanta/mos/mos_os-SunOS-user.h] *)
Definition mos_os_SunOS_user_h : PP :=
  ifndef "_MOS_OS_SUNUSER_H_" (
    define "_MOS_OS_SUNUSER_H_" MFlag >>>
    include sys "stdarg.h" >>>
    include sys "stdio.h" >>>
    include sys "stdlib.h" >>>
    include sys "string.h" >>>
    define "bcopy"
      (MFun ["src"; "dst"; "len"]
         (ECall "memcpy"
            [EParen (EId "dst"); EParen (EId "src"); EParen (EId "len")])) >>>
    define "bzero"
      (MFun ["addr"; "len"]
         (ECall "memset" [EParen (EId "addr"); ENum 0; EParen (EId "len")]))
  ) skip.

(** [RoboSanta/mos/mos_os-Windows-user.h].  Its
    [#include "mos_registry-Windows.h"] is read as the header of that name
    above. *)
Definition mos_os_Windows_user_h : PP :=
  ifndef "_MOS_OS_WINDOWS_USER_H_" (
    define "_MOS_OS_WINDOWS_USER_H_" MFlag >>>
    include sys "sys/stat.h" >>>
    include sys "stdio.h" >>>
    include sys "stdlib.h" >>>
    include sys "errno.h" >>>
    include sys "time.h" >>>
    include sys "process.h" >>>
    include sys "wtypes.h" >>>
    ifndef "EXCLUDE_INT_LIMIT_DEFS" (include sys "ntintsafe.h") skip >>>
    include sys "winnt.h" >>>
    mos_registry_Windows_h >>>
    define "srandom" (MFun ["x"] (EParen (ECall "srand" [EId "x"]))) >>>
    define "random" (MFun [] (EParen (ECall "rand" []))) >>>
    ifndef "va_copy" (
      define "va_copy"
        (MFunText ["dst"; "src"] "do { (dst) = (src); } while (0)")
    ) skip >>>
    proto MOSAPI_MOSCConv TInt "mos_windows_error_to_err" [TNamed "DWORD"] >>>
    proto MOSAPI_MOSCConv TInt "mos_windows_error"
      [TNamed "mosiop_t"; TNamed "DWORD"] >>>
    proto MOSAPI_MOSCConv TInt "mos_windows_wsa_error_to_err" [TInt] >>>
    proto MOSAPI_MOSCConv TInt "mos_windows_wsa_error"
      [TNamed "mosiop_t"; TInt] >>>
    proto MOSAPI_MOSCConv const_char_ptr "mos_windows_strerror"
      [TNamed "DWORD"; TPtr TChar; TNamed "size_t"] >>>
    define "stat"
      (MFun ["fn"; "st"]
         (ECall "_stat" [EId "fn"; ECast (TPtr (TStruct "_stat")) (EId "st")]))
  ) skip.

End WithIncludes.

(** [<stdint.h>] leaves alone the macros that [mos_basic_types-win.h] tests
    after including it. *)
Definition stdint_leaves_tests
    (sys : string -> gmap string macro -> gmap string macro) : Prop :=
  keeps sys "stdint.h" "ssize_t" /\ keeps sys "stdint.h" "_WIN64" /\
  keeps sys "stdint.h" "NAN".

(** The aliases [mos_basic_types-win.h] declares for the WDK. *)
Definition wdk_types : list item :=
  [ITypedef "uint64_t" (TUnsigned (TMsInt 64));
   ITypedef "uint32_t" (TUnsigned (TMsInt 32));
   ITypedef "uint16_t" (TUnsigned (TMsInt 16));
   ITypedef "uint8_t" (TUnsigned (TMsInt 8));
   ITypedef "int64_t" (TMsInt 64);
   ITypedef "int32_t" (TMsInt 32);
   ITypedef "int16_t" (TMsInt 16);
   ITypedef "int8_t" (TMsInt 8);
   ITypedef "uintmax_t" (TNamed "uint64_t");
   ITypedef "intmax_t" (TNamed "int64_t");
   ITypedef "u_char" (TUnsigned TChar);
   ITypedef "u_short" (TUnsigned TShort);
   ITypedef "u_int" (TUnsigned TInt);
   ITypedef "u_long" (TUnsigned TLong)].

(** The return type a prototype is to have: [mos_windows_strerror] returns
    the message, every other function an [int]. *)
Definition return_type_ok (i : item) : Prop :=
  match i with
  | IProto _ ret name _ =>
      ret = if decide (name = "mos_windows_strerror")
            then const_char_ptr else TInt
  | _ => True
  end.

Definition returns_int (i : item) : Prop :=
  match i with
  | IProto _ ret _ _ => ret = TInt
  | _ => True
  end.

(** A platform for the examples: [mos_iop.h] supplies the two markers used in
    every prototype, [stdint.h] the limits of the fixed-width types, and the
    other files leave the macro table alone. *)
Definition sample_sys (file : string) (M : gmap string macro)
    : gmap string macro :=
  if decide (file = "mos_iop.h") then
    <["MOSCConv" := MObjText "__stdcall"]>
      (<["MOSAPI" := MObjText "__declspec(dllimport)"]> M)
  else if decide (file = "stdint.h") then
    <["INT64_MAX" := MObj (ENum INT64_MAX)]>
      (<["INT32_MAX" := MObj (ENum INT32_MAX)]> M)
  else M.

End Headers.

Import Headers.


(** ** The C library functions the SunOS macros expand to *)

Module Libc.

(** Memory: a byte (as a number below 256) at each allocated address. *)
Abbreviation mem := (gmap Z Z).

Fixpoint load_bytes (m : mem) (a : Z) (n : nat) : option (list Z) :=
  match n with
  | O => Some []
  | S k =>
      match m !! a, load_bytes m (a + 1) k with
      | Some b, Some bs => Some (b :: bs)
      | _, _ => None
      end
  end.

(** Storing outside allocated memory is undefined. *)
Fixpoint store_bytes (m : mem) (a : Z) (bs : list Z) : option mem :=
  match bs with
  | [] => Some m
  | b :: bs' =>
      match m !! a with
      | Some _ => store_bytes (<[a := b]> m) (a + 1) bs'
      | None => None
      end
  end.

Definition overlap (a b : Z) (n : nat) : bool :=
  bool_decide (a < b + Z.of_nat n ∧ b < a + Z.of_nat n)%Z.

(** [memcpy(dst, src, n)]: copies [n] bytes and returns [dst]; undefined for a
    negative count, for overlapping objects and outside allocated memory. *)
Definition memcpy (m : mem) (dst src n : Z) : option (Z * mem) :=
  if bool_decide (n < 0)%Z then None
  else if overlap dst src (Z.to_nat n) then None
  else
    match load_bytes m src (Z.to_nat n) with
    | Some bs =>
        match store_bytes m dst bs with
        | Some m' => Some (dst, m')
        | None => None
        end
    | None => None
    end.

(** [memset(s, c, n)]: stores [(unsigned char) c] into [n] bytes and returns
    [s]. *)
Definition memset (m : mem) (s c n : Z) : option (Z * mem) :=
  if bool_decide (n < 0)%Z then None
  else
    match store_bytes m s (replicate (Z.to_nat n) (c mod 256)%Z) with
    | Some m' => Some (s, m')
    | None => None
    end.

Definition call (f : string) (args : list Z) (m : mem) : option (Z * mem) :=
  match args with
  | [a; b; c] =>
      if decide (f = "memcpy") then memcpy m a b c
      else if decide (f = "memset") then memset m a b c
      else None
  | _ => None
  end.

(** Evaluation of the expressions the macros are made of: identifiers are
    read from [ρ], arguments are evaluated from left to right. *)
Fixpoint eval (ρ : gmap string Z) (e : cexpr) (m : mem) : option (Z * mem) :=
  match e with
  | EId x => match ρ !! x with Some v => Some (v, m) | None => None end
  | ENum n => Some (n, m)
  | EParen e1 => eval ρ e1 m
  | ECast _ _ => None
  | EDeref _ => None
  | ECall f args =>
      let fix eval_args (es : list cexpr) (m : mem)
          : option (list Z * mem) :=
        match es with
        | [] => Some ([], m)
        | e1 :: es' =>
            match eval ρ e1 m with
            | Some (v, m1) =>
                match eval_args es' m1 with
                | Some (vs, m2) => Some (v :: vs, m2)
                | None => None
                end
            | None => None
            end
        end in
      match eval_args args m with
      | Some (vs, m') => call f vs m'
      | None => None
      end
  end.

(** A macro invocation [f(args)]: expanded with the macro table, then
    evaluated. *)
Definition invoke (M : gmap string macro) (f : string) (args : list cexpr)
    (ρ : gmap string Z) (m : mem) : option (Z * mem) :=
  match expand_call M f args with
  | Some e => eval ρ e m
  | None => None
  end.

(** The behaviour the two macros are to have, in words of the C library:
    [bcopy(src, dst, len)] is [memcpy(dst, src, len)] and [bzero(addr, len)]
    is [memset(addr, 0, len)]. *)
Definition bcopy_spec (m : mem) (src dst len : Z) : option (Z * mem) :=
  memcpy m dst src len.

Definition bzero_spec (m : mem) (addr len : Z) : option (Z * mem) :=
  memset m addr 0 len.

(** A memory for the examples: five allocated bytes at address 100. *)
Definition sample_mem : mem :=
  {[ 100%Z := 255%Z; 101%Z := 255%Z; 102%Z := 255%Z; 103%Z := 255%Z;
     104%Z := 255%Z ]}.

End Libc.

Import Libc.

(** ** The error translator and the registry accessor

    The headers declare these functions; their bodies, the canonical error
    enumeration, the translation tables and [mos_iop.h] are not among the four
    files.  They are modelled here from the specification, each with the
    signature the header declares. *)

Module Mos.

(** Modelled from the spec: the canonical error enumeration, whose members
    are not given: "a small, platform-independent integer enumeration; every
    native error maps to exactly one canonical code, with a defined unknown
    fallback".  The members other than the fallback are numbered. *)
Inductive CanonicalErrorCode : Type :=
| Unknown
| Known (member : positive).

(** Modelled from the spec: the return protocol (the [int] of the
    declarations), "a defined success marker, or a canonical error code". *)
Inductive status : Type :=
| Success
| Failure (code : CanonicalErrorCode).

Inductive error_space : Type := OsSpace | NetworkSpace.

(** Modelled from the spec: the operation context ([mosiop_t], declared in
    [mos_iop.h]), which "accumulates failure provenance (native code +
    descriptive text)".  The oldest record comes first. *)
Record failure : Type := MkFailure {
  space : error_space;
  native : Z;
  message : list Z
}.

Abbreviation OperationContext := (list failure).

Definition natives (iop : OperationContext) : list Z := map native iop.

(** Modelled from the spec: the state of the host registry behind a key path.
    A key is inaccessible with the native code the host reports, or it holds
    named values as raw bytes. *)
Inductive key : Type :=
| Inaccessible (code : Z)
| Values (vs : gmap string (list Z)).

Abbreviation registry := (gmap string key).

(** The host's native code for a key or a value that does not exist. *)
Definition ERROR_FILE_NOT_FOUND : Z := 2.

(** Modelled from the spec: what the host answers when a value is asked for,
    after the edge cases the accessor has to tell apart: "value missing",
    "value present" and "key inaccessible (permissions, non-existent path
    component)". *)
Inductive query_result : Type :=
| KeyInaccessible (code : Z)
| ValueAbsent
| ValuePresent (data : list Z).

Definition query (reg : registry) (key_path value_name : string)
    : query_result :=
  match reg !! key_path with
  | None => KeyInaccessible ERROR_FILE_NOT_FOUND
  | Some (Inaccessible code) => KeyInaccessible code
  | Some (Values vs) =>
      match vs !! value_name with
      | None => ValueAbsent
      | Some data => ValuePresent data
      end
  end.

(** Modelled from the spec: a registry value read without regard to its type,
    "an untyped (buffer, size, value-offset, value-length) tuple". *)
Record RegistryValue : Type := MkRegistryValue {
  buffer : list Z;
  size : Z;
  value_offset : Z;
  value_length : Z
}.

Section Platform.

(** The two translation tables, one per native numbering space, and the
    host's text for a native code. *)
Variable os_table : gmap Z positive.
Variable wsa_table : gmap Z positive.
Variable render : Z -> list Z.

(** How the bytes of a registry value are read as a number, and the canonical
    code for a value that cannot be read so. *)
Variable parse_u32 : list Z -> option Z.
Variable malformed : positive.

(** Modelled from the spec: the body of [mos_windows_error_to_err(DWORD)],
    "for every native OS error code present in the mapping table, returns
    exactly the documented canonical code; for any code absent from the
    table, it returns the canonical unknown code". *)
Definition mos_windows_error_to_err (code : Z) : CanonicalErrorCode :=
  match os_table !! code with
  | Some c => Known c
  | None => Unknown
  end.

(** Modelled from the spec: the body of [mos_windows_wsa_error_to_err(int)],
    the "same contract for the host's network-subsystem error space". *)
Definition mos_windows_wsa_error_to_err (code : Z) : CanonicalErrorCode :=
  match wsa_table !! code with
  | Some c => Known c
  | None => Unknown
  end.

(** Modelled from the spec: the body of [mos_windows_error(mosiop_t, DWORD)],
    which "maps a value from the host's generic OS error space to the
    canonical enumeration; records the native code and a default message
    into context". *)
Definition mos_windows_error (iop : OperationContext) (code : Z)
    : OperationContext * CanonicalErrorCode :=
  ((iop ++ [MkFailure OsSpace code (render code)])%list,
   mos_windows_error_to_err code).

(** Modelled from the spec: the body of [mos_windows_wsa_error(mosiop_t, int)],
    the same for the network-subsystem error space. *)
Definition mos_windows_wsa_error (iop : OperationContext) (code : Z)
    : OperationContext * CanonicalErrorCode :=
  ((iop ++ [MkFailure NetworkSpace code (render code)])%list,
   mos_windows_wsa_error_to_err code).

(** Modelled from the spec: the body of
    [mos_windows_strerror(DWORD error, char *msgbuf, size_t msgbufsz)], which
    "writes a human-readable description of a native code into a
    caller-owned buffer of bounded size; never writes past buffer_size;
    truncates safely".  The text is stored with its terminating zero byte;
    the result is the [const char *] of the declaration, the buffer. *)
Definition mos_windows_strerror (error : Z) (msgbuf : Z) (msgbufsz : nat)
    (m : mem) : option (Z * mem) :=
  match msgbufsz with
  | O => Some (msgbuf, m)
  | S room =>
      match store_bytes m msgbuf (take room (render error) ++ [0%Z]) with
      | Some m' => Some (msgbuf, m')
      | None => None
      end
  end.

(** The rendered text with its terminator does not fit the buffer. *)
Definition truncated (error : Z) (msgbufsz : nat) : bool :=
  bool_decide (msgbufsz < S (length (render error))).

(** Modelled from the spec: the body of [mos_registry_getmachinevalue], which
    "retrieves the raw byte representation of a named value beneath a
    machine-scoped key, along with its size, the byte offset of the value's
    data, and its length".  The third component is what is stored through
    the four output parameters. *)
Definition mos_registry_getmachinevalue (reg : registry)
    (iop : OperationContext) (key_path value_name : string)
    : OperationContext * status * option RegistryValue :=
  match query reg key_path value_name with
  | KeyInaccessible code =>
      let '(iop', c) := mos_windows_error iop code in (iop', Failure c, None)
  | ValueAbsent =>
      let '(iop', c) := mos_windows_error iop ERROR_FILE_NOT_FOUND in
      (iop', Failure c, None)
  | ValuePresent data =>
      let n := Z.of_nat (length data) in
      (iop, Success, Some (MkRegistryValue data n 0 n))
  end.

(** Modelled from the spec: the body of [mos_registry_getu32], which
    "retrieves and parses a 32-bit unsigned integer. If the value is absent,
    returns default_value as a success, not an error. If the value is present
    but cannot be parsed as an integer, or the key cannot be accessed for any
    other reason, returns an error".  The third component is what is stored
    through the [uint32_t *] output parameter, if anything. *)
Definition mos_registry_getu32 (reg : registry) (iop : OperationContext)
    (key_path value_name : string) (default_value : Z)
    : OperationContext * status * option Z :=
  match query reg key_path value_name with
  | KeyInaccessible code =>
      let '(iop', c) := mos_windows_error iop code in (iop', Failure c, None)
  | ValueAbsent => (iop, Success, Some default_value)
  | ValuePresent data =>
      match parse_u32 data with
      | Some v => (iop, Success, Some v)
      | None => (iop, Failure (Known malformed), None)
      end
  end.

(** Modelled from the spec: the body of [mos_registry_setmachinevalue], which
    "writes raw bytes to a named value". *)
Definition mos_registry_setmachinevalue (reg : registry)
    (iop : OperationContext) (key_path value_name : string) (data : list Z)
    : registry * OperationContext * status :=
  match reg !! key_path with
  | None =>
      let '(iop', c) := mos_windows_error iop ERROR_FILE_NOT_FOUND in
      (reg, iop', Failure c)
  | Some (Inaccessible code) =>
      let '(iop', c) := mos_windows_error iop code in (reg, iop', Failure c)
  | Some (Values vs) =>
      (<[key_path := Values (<[value_name := data]> vs)]> reg, iop, Success)
  end.

End Platform.

(** A reader of registry values for the examples: an unsigned decimal numeral
    in ASCII, below 2^32. *)
Fixpoint decimal (acc : Z) (bs : list Z) : option Z :=
  match bs with
  | [] => Some acc
  | b :: bs' =>
      if bool_decide (48 ≤ b ≤ 57)%Z
      then decimal (10 * acc + (b - 48)) bs'
      else None
  end.

Definition parse_decimal (bs : list Z) : option Z :=
  match bs with
  | [] => None
  | _ :: _ =>
      match decimal 0 bs with
      | Some v => if bool_decide (v < 2 ^ 32)%Z then Some v else None
      | None => None
      end
  end.

(** The bytes of an ASCII string. *)
Definition bytes (s : string) : list Z :=
  map (fun c => Z.of_N (Ascii.N_of_ascii c)) (String.list_ascii_of_string s).

(** A host for the examples: two short tables, two texts, and a registry
    with the key of the application, once with a [Timeout] that is no number
    and once without one. *)
Definition sample_os_table : gmap Z positive := {[ 2%Z := 1%positive; 5%Z := 2%positive ]}.
Definition sample_wsa_table : gmap Z positive := {[ 10061%Z := 3%positive ]}.

Definition sample_render (code : Z) : list Z :=
  if bool_decide (code = 5%Z) then bytes "Access is denied."
  else bytes "Unknown error".

Definition short_render (code : Z) : list Z := bytes "abc".
Definition long_render (code : Z) : list Z := bytes "abcdef".

Definition sample_registry : registry :=
  {[ "Software\RoboSanta" := Values {[ "Name" := bytes "Santa" ]};
     "Software\Locked" := Inaccessible 5 ]}.

Definition malformed_registry : registry :=
  {[ "Software\RoboSanta" := Values {[ "Timeout" := bytes "soon" ]} ]}.

End Mos.

Import Mos.

(** ** Reasoning about headers, and what their declarations mean *)

Module CppLogic.

(** [p] does not change whether [x] is defined. *)
Definition transparent (x : string) (p : PP) : Prop :=
  forall s, is_defined x (p s) = is_defined x s.

(** [p] keeps the property [I] of the preprocessor state. *)
Definition preserves (I : penv -> Prop) (p : PP) : Prop :=
  forall s, I s -> I (p s).

(** [p] takes nothing back that was emitted before it. *)
Definition monotone (p : PP) : Prop :=
  forall s i, i ∈ out s -> i ∈ out (p s).

(** The include guards of the four headers. *)
Definition include_guards : list string :=
  ["_MOS_BASE_TYPES_WIN_H_"; "_MOS_OS_SUNUSER_H_"; "_MOS_OS_WINDOWS_USER_H_";
   "_MOS_REGISTRY_WINDOWS_H_"].

(** The functions declared, in the order of their prototypes. *)
Fixpoint proto_names (l : list item) : list string :=
  match l with
  | [] => []
  | IProto _ _ x _ :: l' => x :: proto_names l'
  | _ :: l' => proto_names l'
  end.

(** A prototype carries the two markers, and an operation context, where
    the function takes one, is its first parameter and no other. *)
Definition is_context (t : ctype) : bool :=
  match t with
  | TNamed x => bool_decide (x = "mosiop_t")
  | _ => false
  end.

Definition well_formed_proto (i : item) : Prop :=
  match i with
  | IProto attrs _ _ params =>
      attrs = ["MOSAPI"; "MOSCConv"] /\ existsb is_context (tail params) = false
  | _ => True
  end.

(** An item other than a definition of [x], an inclusion of [file]. *)
Definition not_define (x : string) (i : item) : Prop :=
  match i with
  | IDefine y _ => y <> x
  | _ => True
  end.

Definition not_include (file : string) (i : item) : Prop :=
  match i with
  | IInclude f => f <> file
  | _ => True
  end.





(** The object representation of an array of integers of [width] bytes
    each, in either byte order. *)
Fixpoint le_bytes (width : nat) (v : Z) : list Z :=
  match width with
  | O => []
  | S k => (v mod 256)%Z :: le_bytes k (v / 256)%Z
  end.

Definition object_bytes (big_endian : bool) (width : nat) (init : list Z)
    : list Z :=
  concat (map (fun v => if big_endian then rev (le_bytes width v)
                        else le_bytes width v) init).

Fixpoint le_value (bs : list Z) : Z :=
  match bs with
  | [] => 0%Z
  | b :: bs' => (b + 256 * le_value bs')%Z
  end.

(** The 32 bits a [float] lvalue at the start of [bs] reads. *)
Definition float_bits (big_endian : bool) (bs : list Z) : option Z :=
  if decide (length bs < 4)%nat then None
  else Some (le_value (if big_endian then rev (take 4 bs) else take 4 bs)).

(** IEEE 754 binary32: the exponent field is all ones and the fraction is
    not zero. *)
Definition is_nan32 (bits : Z) : bool :=
  bool_decide (Z.land (Z.shiftr bits 23) 255 = 255%Z) &&
  negb (bool_decide (Z.land bits 8388607 = 0%Z)).

Fixpoint static_of (x : string) (l : list item) : option (ctype * list Z) :=
  match l with
  | [] => None
  | IStaticConst y t init :: l' =>
      if decide (y = x) then Some (t, init) else static_of x l'
  | _ :: l' => static_of x l'
  end.

(** The bits read by a macro of the form [( *(const float * ) a)], where [a]
    is an array of [unsigned long] of [long_bytes] bytes each. *)
Definition read_float_macro (M : gmap string macro) (l : list item)
    (big_endian : bool) (long_bytes : nat) (x : string) : option Z :=
  match M !! x with
  | Some (MObj (EParen (EDeref (ECast (TPtr (TConst TFloat)) (EId a))))) =>
      match static_of a l with
      | Some (TUnsigned TLong, init) =>
          float_bits big_endian (object_bytes big_endian long_bytes init)
      | _ => None
      end
  | _ => None
  end.

(** The identifiers of a type and of an expression, and an expression none
    of whose identifiers is a macro of [M]: the preprocessor leaves such an
    expression as it is.  Keywords are taken not to be macros. *)
Fixpoint ctype_names (t : ctype) : list string :=
  match t with
  | TStruct tag => [tag]
  | TNamed x => [x]
  | TUnsigned t1 => ctype_names t1
  | TConst t1 => ctype_names t1
  | TPtr t1 => ctype_names t1
  | _ => []
  end.

Fixpoint expr_names (e : cexpr) : list string :=
  match e with
  | EId x => [x]
  | ENum _ => []
  | EParen e1 => expr_names e1
  | ECast t e1 => ctype_names t ++ expr_names e1
  | EDeref e1 => expr_names e1
  | ECall f args => f :: concat (map expr_names args)
  end.

Definition macro_free (M : gmap string macro) (e : cexpr) : Prop :=
  Forall (fun x => M !! x = None) (expr_names e).

(** The bytes at [a] are allocated. *)
Definition allocated (m : mem) (a : Z) (n : nat) : Prop :=
  forall i, (i < n)%nat -> is_Some (m !! (a + Z.of_nat i)%Z).

End CppLogic.

Import CppLogic.

(** * Properties *)

(** ** The preprocessor combinators *)

Lemma is_defined_spec x s : is_defined x s = true <-> is_Some (macros s !! x).
Proof. unfold is_defined. apply bool_decide_eq_true. Qed.

Lemma is_defined_false x s : is_defined x s = false <-> macros s !! x = None.
Proof.
  unfold is_defined. rewrite bool_decide_eq_false, eq_None_not_Some. tauto.
Qed.

Lemma is_defined_define x y m s :
  is_defined x (define y m s) = if decide (y = x) then true else is_defined x s.
Proof.
  unfold is_defined, define; simpl. rewrite lookup_insert.
  destruct (decide (y = x)); [apply bool_decide_eq_true; eauto | done].
Qed.

Lemma is_defined_emit x i s : is_defined x (emit i s) = is_defined x s.
Proof. reflexivity. Qed.

Lemma is_defined_include sys f x s :
  is_defined x (include sys f s) = bool_decide (is_Some (sys f (macros s) !! x)).
Proof. reflexivity. Qed.

Lemma is_defined_include_keeps sys f x s :
  keeps sys f x -> is_defined x (include sys f s) = is_defined x s.
Proof.
  intros H. unfold is_defined, include; simpl. apply bool_decide_ext, H.
Qed.

Lemma is_defined_start x M : is_defined x (start M) = true <-> is_Some (M !! x).
Proof. apply is_defined_spec. Qed.

Lemma not_defined_start x M : is_defined x (start M) = false <-> M !! x = None.
Proof. apply is_defined_false. Qed.

Lemma const_value_alias M x y v :
  M !! x = Some (MObj (EId y)) -> M !! y = Some (MObj (ENum v)) ->
  const_value 3 M (EId x) = Some v.
Proof. intros Hx Hy. simpl. rewrite Hx, Hy. reflexivity. Qed.

(** Pushes a test of a macro through the directives before it. *)
Ltac cpp_defined :=
  repeat first
    [ rewrite is_defined_emit
    | rewrite is_defined_define, decide_False by discriminate
    | rewrite is_defined_include_keeps by assumption ].

(** Looks a macro up in a table built by a known chain of directives. *)
Ltac cpp_lookup :=
  cbn [macros define emit include start];
  repeat (rewrite lookup_insert_ne by discriminate);
  rewrite ?lookup_insert_eq.

(** [Hin : i ∈ l] for a literal list [l] that has no such item. *)
Ltac not_listed Hin :=
  repeat (apply elem_of_cons in Hin as [Hin | Hin]; [discriminate Hin |]);
  by apply elem_of_nil in Hin.

(** ** The registry header *)

Section RegistryHeader.

Variable sys : string -> gmap string macro -> gmap string macro.

Lemma registry_header_guarded M :
  is_Some (M !! "_MOS_REGISTRY_WINDOWS_H_") ->
  mos_registry_Windows_h sys (start M) = start M.
Proof.
  intros H. unfold mos_registry_Windows_h, ifndef.
  by rewrite (proj2 (is_defined_spec _ (start M)) H).
Qed.

Lemma registry_header_out M :
  M !! "_MOS_REGISTRY_WINDOWS_H_" = None ->
  keeps sys "mos_iop.h" "_KERNEL" ->
  out (mos_registry_Windows_h sys (start M)) =
    [IDefine "_MOS_REGISTRY_WINDOWS_H_" MFlag;
     IInclude "mos_iop.h";
     IProto MOSAPI_MOSCConv TInt "mos_registry_getmachinevalue"
       [TNamed "mosiop_t"; const_char_ptr; const_char_ptr;
        TPtr (TPtr TVoid); uint32_ptr; uint32_ptr; uint32_ptr];
     IProto MOSAPI_MOSCConv TInt "mos_registry_getu32"
       [TNamed "mosiop_t"; const_char_ptr; const_char_ptr; uint32_ptr;
        TNamed "uint32_t"]] ++
    (if bool_decide (is_Some (M !! "_KERNEL")) then []
     else [IProto MOSAPI_MOSCConv TInt "mos_registry_setmachinevalue"
             [TNamed "mosiop_t"; const_char_ptr; const_char_ptr;
              TPtr (TConst TVoid); TNamed "uint32_t"]]).
Proof.
  intros Hg Hk. unfold mos_registry_Windows_h, ifndef at 1.
  rewrite (proj2 (is_defined_false _ (start M)) Hg).
  unfold seq, ifndef, proto. rewrite !is_defined_emit, is_defined_include.
  simpl macros.
  assert (bool_decide (is_Some (sys "mos_iop.h"
            (<["_MOS_REGISTRY_WINDOWS_H_" := MFlag]> M) !! "_KERNEL"))
          = bool_decide (is_Some (M !! "_KERNEL"))) as ->.
  { apply bool_decide_ext. rewrite (Hk _), lookup_insert_ne; done. }
  destruct (bool_decide (is_Some (M !! "_KERNEL"))); reflexivity.
Qed.

(** C4.  [mos_registry_setmachinevalue] is declared only outside kernel
    builds: a translation unit that reads the header with [_KERNEL] defined
    gets no declaration of it, so its absence is settled by the preprocessor
    when the unit is built; without [_KERNEL] the declaration is there.  The
    two read operations are declared in both kinds of build. *)
Theorem setmachinevalue_only_outside_kernel (M : gmap string macro) :
  keeps sys "mos_iop.h" "_KERNEL" ->
  (is_Some (M !! "_KERNEL") ->
     ~ declares "mos_registry_setmachinevalue"
         (mos_registry_Windows_h sys (start M))) /\
  (M !! "_MOS_REGISTRY_WINDOWS_H_" = None ->
     (M !! "_KERNEL" = None <->
        declares "mos_registry_setmachinevalue"
          (mos_registry_Windows_h sys (start M))) /\
     declares "mos_registry_getmachinevalue"
       (mos_registry_Windows_h sys (start M)) /\
     declares "mos_registry_getu32" (mos_registry_Windows_h sys (start M))).
Proof.
  intros Hk. split.
  - intros HK (attrs & ret & params & Hin).
    destruct (M !! "_MOS_REGISTRY_WINDOWS_H_") eqn:Hg.
    + rewrite registry_header_guarded in Hin by eauto. simpl in Hin.
      by apply elem_of_nil in Hin.
    + rewrite registry_header_out in Hin by done.
      rewrite bool_decide_eq_true_2 in Hin by done.
      rewrite app_nil_r in Hin. not_listed Hin.
  - intros Hg. unfold declares. rewrite registry_header_out by done.
    split; [split|split].
    + intros HK. rewrite bool_decide_eq_false_2 by (rewrite HK; by intros [? ?]).
      do 3 eexists. apply elem_of_app. right. apply list_elem_of_singleton.
      reflexivity.
    + intros (attrs & ret & params & Hin).
      destruct (M !! "_KERNEL") eqn:HK; [|done].
      rewrite bool_decide_eq_true_2 in Hin by eauto.
      rewrite app_nil_r in Hin. not_listed Hin.
    + do 3 eexists. apply elem_of_app. left. do 2 right. left.
    + do 3 eexists. apply elem_of_app. left. do 3 right. left.
Qed.

End RegistryHeader.

(** ** The type header *)

Section TypeHeader.

Variable sys : string -> gmap string macro -> gmap string macro.
Hypothesis Hsys : stdint_leaves_tests sys.

Lemma basic_types_guarded M :
  is_Some (M !! "_MOS_BASE_TYPES_WIN_H_") ->
  mos_basic_types_win_h sys (start M) = start M.
Proof.
  intros H. unfold mos_basic_types_win_h, ifndef.
  by rewrite (proj2 (is_defined_spec _ (start M)) H).
Qed.

(** What the header emits, by the macros of the build. *)
Lemma basic_types_out M :
  M !! "_MOS_BASE_TYPES_WIN_H_" = None ->
  out (mos_basic_types_win_h sys (start M)) =
    [IDefine "_MOS_BASE_TYPES_WIN_H_" MFlag;
     IDefine "MOSImport" (MObjText "__declspec(dllimport)")] ++
    (if is_defined "WIN_WDK" (start M) then wdk_types
     else [IInclude "stdint.h"]) ++
    [IDefine "NULL" (MObj (EParen (ECast (TPtr TVoid) (ENum 0))))] ++
    (if is_defined "ssize_t" (start M) then []
     else if is_defined "_WIN64" (start M)
     then [ITypedef "ssize_t" (TNamed "int64_t");
           IDefine "SSIZE_MAX" (MObj (EId "INT64_MAX"))]
     else [ITypedef "ssize_t" (TNamed "int32_t");
           IDefine "SSIZE_MAX" (MObj (EId "INT32_MAX"))]) ++
    (if is_defined "NAN" (start M) then []
     else [IStaticConst "__nan" (TUnsigned TLong)
             [0xffffffff; 0x7fffffff]%Z;
           IDefine "NAN"
             (MObj (EParen (EDeref (ECast (TPtr (TConst TFloat))
                                      (EId "__nan")))))]).
Proof.
  destruct Hsys as (H1 & H2 & H3).
  intros Hg. unfold mos_basic_types_win_h, ifndef at 1.
  rewrite (proj2 (is_defined_false _ (start M)) Hg).
  unfold seq, ifndef, ifdef, typedef, static_const, skip.
  cpp_defined.
  destruct (is_defined "WIN_WDK" (start M)) eqn:Hwdk; cpp_defined;
  destruct (is_defined "ssize_t" (start M)) eqn:Hss; cpp_defined;
  try (destruct (is_defined "_WIN64" (start M)) eqn:H64; cpp_defined);
  destruct (is_defined "NAN" (start M)) eqn:Hnan; reflexivity.
Qed.

(** The definition of [SSIZE_MAX] in force after the header. *)
Lemma basic_types_SSIZE_MAX M :
  M !! "_MOS_BASE_TYPES_WIN_H_" = None -> M !! "ssize_t" = None ->
  macros (mos_basic_types_win_h sys (start M)) !! "SSIZE_MAX" =
    Some (MObj (EId (if is_defined "_WIN64" (start M)
                     then "INT64_MAX" else "INT32_MAX"))).
Proof.
  destruct Hsys as (H1 & H2 & H3).
  intros Hg Hs. unfold mos_basic_types_win_h, ifndef at 1.
  rewrite (proj2 (is_defined_false _ (start M)) Hg).
  apply not_defined_start in Hs.
  unfold seq, ifndef, ifdef, typedef, static_const, skip.
  cpp_defined.
  destruct (is_defined "WIN_WDK" (start M)) eqn:Hwdk; cpp_defined;
  rewrite Hs; cpp_defined;
  destruct (is_defined "_WIN64" (start M)) eqn:H64; cpp_defined;
  destruct (is_defined "NAN" (start M)) eqn:Hnan; cpp_lookup; reflexivity.
Qed.

(** C5.  The signed size type and its maximum follow the pointer width of
    the target.  Whatever the header declares for them matches it: with
    [_WIN64], [ssize_t] is [int64_t] and [SSIZE_MAX] is [INT64_MAX], that is
    2^63 - 1; without it, [ssize_t] is [int32_t] and [SSIZE_MAX] is
    [INT32_MAX], that is 2^31 - 1.  And the header does declare them, in a
    build where [ssize_t] is not a macro already. *)
Theorem ssize_max_matches_pointer_width (M : gmap string macro) :
  let s := mos_basic_types_win_h sys (start M) in
  let w64 := is_defined "_WIN64" (start M) in
  (forall t, ITypedef "ssize_t" t ∈ out s ->
     t = TNamed (if w64 then "int64_t" else "int32_t")) /\
  (forall m, IDefine "SSIZE_MAX" m ∈ out s ->
     m = MObj (EId (if w64 then "INT64_MAX" else "INT32_MAX"))) /\
  (M !! "_MOS_BASE_TYPES_WIN_H_" = None -> M !! "ssize_t" = None ->
     ITypedef "ssize_t" (TNamed (if w64 then "int64_t" else "int32_t"))
       ∈ out s /\
     macros s !! "SSIZE_MAX" =
       Some (MObj (EId (if w64 then "INT64_MAX" else "INT32_MAX"))) /\
     (macros s !! "INT64_MAX" = Some (MObj (ENum INT64_MAX)) ->
      macros s !! "INT32_MAX" = Some (MObj (ENum INT32_MAX)) ->
      const_value 3 (macros s) (EId "SSIZE_MAX") =
        Some (if w64 then 2 ^ 63 - 1 else 2 ^ 31 - 1)%Z)).
Proof.
  intros s w64.
  assert (Hdecl : forall i, i ∈ out s ->
            (forall t, i = ITypedef "ssize_t" t ->
               t = TNamed (if w64 then "int64_t" else "int32_t")) /\
            (forall m, i = IDefine "SSIZE_MAX" m ->
               m = MObj (EId (if w64 then "INT64_MAX" else "INT32_MAX")))).
  { intros i Hin. subst s w64.
    destruct (M !! "_MOS_BASE_TYPES_WIN_H_") eqn:Hg.
    - rewrite basic_types_guarded in Hin by eauto. by apply elem_of_nil in Hin.
    - rewrite basic_types_out in Hin by done.
      destruct (is_defined "WIN_WDK" (start M)), (is_defined "ssize_t" (start M)),
        (is_defined "_WIN64" (start M)), (is_defined "NAN" (start M));
        simpl in Hin;
        repeat (apply elem_of_cons in Hin as [-> | Hin];
                [split; intros ? Heq; first [discriminate Heq | by inversion Heq] |]);
        by apply elem_of_nil in Hin. }
  split; [|split].
  - intros t Hin. by apply (Hdecl _ Hin).
  - intros m Hin. by apply (Hdecl _ Hin).
  - intros Hg Hs.
    pose proof (basic_types_SSIZE_MAX M Hg Hs) as Hmax. fold s w64 in Hmax.
    split; [|split; [exact Hmax|]].
    + subst s. rewrite basic_types_out by done.
      rewrite (proj2 (not_defined_start _ _) Hs). fold w64.
      rewrite !elem_of_app. do 3 right. left. destruct w64; left.
    + intros H64 H32. destruct w64.
      * by rewrite (const_value_alias _ _ _ _ Hmax H64).
      * by rewrite (const_value_alias _ _ _ _ Hmax H32).
Qed.

(** C6, as the header has it.  [NAN] is defined only in a build that does
    not define it already, [ssize_t] and [SSIZE_MAX] only in a build where
    [ssize_t] is not a macro already, and the fixed-width aliases only under
    [WIN_WDK]; [NULL] is defined without a test, also where the build has a
    [NULL] already. *)
Theorem definitions_guarded_except_NULL (M : gmap string macro) :
  let s := mos_basic_types_win_h sys (start M) in
  (is_Some (M !! "NAN") -> ~ defines "NAN" s) /\
  (is_Some (M !! "ssize_t") ->
     ~ typedefs "ssize_t" s /\ ~ defines "SSIZE_MAX" s) /\
  (M !! "WIN_WDK" = None -> forall i, i ∈ wdk_types -> i ∉ out s) /\
  (M !! "_MOS_BASE_TYPES_WIN_H_" = None -> defines "NULL" s).
Proof.
  intros s. subst s.
  destruct (M !! "_MOS_BASE_TYPES_WIN_H_") eqn:Hg.
  { rewrite basic_types_guarded by eauto. unfold defines, typedefs. simpl.
    split; [|split; [|split]]; [| |  |done].
    - intros _ (x & Hin). by apply elem_of_nil in Hin.
    - intros _. split; intros (x & Hin); by apply elem_of_nil in Hin.
    - intros _ i _ Hin. by apply elem_of_nil in Hin. }
  unfold defines, typedefs. rewrite basic_types_out by done.
  split; [|split; [|split]].
  - intros HN (m & Hin). rewrite (proj2 (is_defined_start _ _) HN) in Hin.
    destruct (is_defined "WIN_WDK" (start M)), (is_defined "ssize_t" (start M)),
      (is_defined "_WIN64" (start M)); simpl in Hin; not_listed Hin.
  - intros HS. rewrite (proj2 (is_defined_start _ _) HS).
    split; intros (x & Hin);
      destruct (is_defined "WIN_WDK" (start M)), (is_defined "NAN" (start M));
      simpl in Hin; not_listed Hin.
  - intros HW i Hi Hin. rewrite (proj2 (not_defined_start _ _) HW) in Hin.
    unfold wdk_types in Hi.
    destruct (is_defined "ssize_t" (start M)), (is_defined "_WIN64" (start M)),
      (is_defined "NAN" (start M)); simpl in Hin;
      repeat (apply elem_of_cons in Hi as [-> | Hi]; [not_listed Hin |]);
      by apply elem_of_nil in Hi.
  - intros _. eexists. rewrite !elem_of_app. do 2 right. left. left.
Qed.

End TypeHeader.

(** ** The Windows user header *)

Section EmitsOnly.

Variable P : item -> Prop.

Lemma emits_only_skip : emits_only P skip.
Proof. intros s H. exact H. Qed.

Lemma emits_only_seq p q : emits_only P p -> emits_only P q -> emits_only P (p >>> q).
Proof. intros Hp Hq s H. apply Hq, Hp, H. Qed.

Lemma emits_only_emit i : P i -> emits_only P (emit i).
Proof. intros Hi s H. simpl. apply Forall_app. split; [exact H | by constructor]. Qed.

Lemma emits_only_proto attrs ret x params :
  P (IProto attrs ret x params) -> emits_only P (proto attrs ret x params).
Proof. apply emits_only_emit. Qed.

Lemma emits_only_define x m : P (IDefine x m) -> emits_only P (define x m).
Proof. intros Hi s H. simpl. apply Forall_app. split; [exact H | by constructor]. Qed.

Lemma emits_only_include sys f : P (IInclude f) -> emits_only P (include sys f).
Proof. intros Hi s H. simpl. apply Forall_app. split; [exact H | by constructor]. Qed.

Lemma emits_only_ifdef x p q :
  emits_only P p -> emits_only P q -> emits_only P (ifdef x p q).
Proof. intros Hp Hq s H. unfold ifdef. destruct (is_defined x s); auto. Qed.

Lemma emits_only_ifndef x p q :
  emits_only P p -> emits_only P q -> emits_only P (ifndef x p q).
Proof. intros Hp Hq s H. unfold ifndef. destruct (is_defined x s); auto. Qed.

Lemma emits_only_start p M i : emits_only P p -> i ∈ out (p (start M)) -> P i.
Proof.
  intros Hp Hin. specialize (Hp (start M) (Forall_nil_2 P)).
  rewrite Forall_forall in Hp. by apply Hp.
Qed.

End EmitsOnly.

(** Goes through a header directive by directive. *)
Ltac emits_only_tac :=
  repeat first
    [ assumption
    | apply emits_only_skip
    | apply emits_only_seq
    | apply emits_only_proto
    | apply emits_only_define
    | apply emits_only_include
    | apply emits_only_ifdef
    | apply emits_only_ifndef
    | exact I
    | reflexivity ].

Lemma elem_of_out_define i x m s : i ∈ out s -> i ∈ out (define x m s).
Proof. intros H. simpl. apply elem_of_app. by left. Qed.

Lemma elem_of_out_emit i s : i ∈ out (emit i s).
Proof. simpl. apply elem_of_app. right. left. Qed.

Lemma elem_of_out_emit_further i j s : i ∈ out s -> i ∈ out (emit j s).
Proof. intros H. simpl. apply elem_of_app. by left. Qed.

(** Finds an item among those the last directives emitted. *)
Ltac emitted :=
  repeat first
    [ apply elem_of_out_emit
    | apply elem_of_out_define
    | apply elem_of_out_emit_further ].

Section WindowsHeader.

Variable sys : string -> gmap string macro -> gmap string macro.

Lemma registry_header_returns_int : emits_only returns_int (mos_registry_Windows_h sys).
Proof. unfold mos_registry_Windows_h. emits_only_tac. Qed.

Lemma registry_header_return_types :
  emits_only return_type_ok (mos_registry_Windows_h sys).
Proof. unfold mos_registry_Windows_h. emits_only_tac. Qed.

Lemma windows_header_return_types :
  emits_only return_type_ok (mos_os_Windows_user_h sys).
Proof.
  pose proof registry_header_return_types.
  unfold mos_os_Windows_user_h. emits_only_tac.
Qed.

Lemma windows_header_declares_strerror M :
  M !! "_MOS_OS_WINDOWS_USER_H_" = None ->
  IProto MOSAPI_MOSCConv const_char_ptr "mos_windows_strerror"
    [TNamed "DWORD"; TPtr TChar; TNamed "size_t"]
    ∈ out (mos_os_Windows_user_h sys (start M)).
Proof.
  intros Hg. unfold mos_os_Windows_user_h, ifndef at 1.
  rewrite (proj2 (not_defined_start _ _) Hg). unfold seq.
  apply elem_of_out_define, elem_of_out_emit.
Qed.

(** C9, as the headers have it.  Every function the two headers declare
    returns [int], except [mos_windows_strerror], which returns the message
    as a [const char *]; the four translators are declared so, and so is
    [mos_windows_strerror]. *)
Theorem exported_return_types (M : gmap string macro) :
  let s := mos_os_Windows_user_h sys (start M) in
  (forall attrs ret name params,
     IProto attrs ret name params ∈ out s ->
     ret = if decide (name = "mos_windows_strerror")
           then const_char_ptr else TInt) /\
  (forall attrs ret name params,
     IProto attrs ret name params
       ∈ out (mos_registry_Windows_h sys (start M)) ->
     ret = TInt) /\
  (M !! "_MOS_OS_WINDOWS_USER_H_" = None ->
     IProto MOSAPI_MOSCConv const_char_ptr "mos_windows_strerror"
       [TNamed "DWORD"; TPtr TChar; TNamed "size_t"] ∈ out s /\
     IProto MOSAPI_MOSCConv TInt "mos_windows_error_to_err" [TNamed "DWORD"]
       ∈ out s /\
     IProto MOSAPI_MOSCConv TInt "mos_windows_error"
       [TNamed "mosiop_t"; TNamed "DWORD"] ∈ out s /\
     IProto MOSAPI_MOSCConv TInt "mos_windows_wsa_error_to_err" [TInt]
       ∈ out s /\
     IProto MOSAPI_MOSCConv TInt "mos_windows_wsa_error"
       [TNamed "mosiop_t"; TInt] ∈ out s).
Proof.
  intros s. subst s. split; [|split].
  - intros attrs ret name params Hin.
    exact (emits_only_start _ _ _ _ windows_header_return_types Hin).
  - intros attrs ret name params Hin.
    exact (emits_only_start _ _ _ _ registry_header_returns_int Hin).
  - intros Hg. split; [by apply windows_header_declares_strerror|].
    repeat split;
      unfold mos_os_Windows_user_h, ifndef at 1;
      rewrite (proj2 (not_defined_start _ _) Hg); unfold seq, proto; emitted.
Qed.

End WindowsHeader.

(** ** Memory *)

Lemma store_bytes_is_Some (bs : list Z) : forall (m : mem) (a : Z),
  (forall i, (i < length bs)%nat -> is_Some (m !! (a + Z.of_nat i)%Z)) ->
  is_Some (store_bytes m a bs).
Proof.
  induction bs as [|b bs IH]; intros m a Halloc; simpl; [eauto|].
  destruct (Halloc 0%nat) as [v Hv]; [simpl; lia|].
  rewrite Z.add_0_r in Hv. rewrite Hv. apply IH. intros i Hi.
  destruct (Halloc (S i)) as [w Hw]; [simpl; lia|].
  replace (a + 1 + Z.of_nat i)%Z with (a + Z.of_nat (S i))%Z by lia.
  rewrite lookup_insert_ne by lia. eauto.
Qed.

Lemma store_bytes_other (bs : list Z) : forall (m m' : mem) (a x : Z),
  store_bytes m a bs = Some m' ->
  (x < a \/ a + Z.of_nat (length bs) <= x)%Z ->
  m' !! x = m !! x.
Proof.
  induction bs as [|b bs IH]; intros m m' a x Hst Hx; simpl in Hst.
  - by inversion Hst.
  - destruct (m !! a) eqn:Ha; [|discriminate].
    rewrite (IH _ _ _ x Hst) by (simpl in Hx; lia).
    apply lookup_insert_ne. simpl in Hx. lia.
Qed.

Lemma store_bytes_load (bs : list Z) : forall (m m' : mem) (a : Z),
  store_bytes m a bs = Some m' -> load_bytes m' a (length bs) = Some bs.
Proof.
  induction bs as [|b bs IH]; intros m m' a Hst; simpl in *; [done|].
  destruct (m !! a) eqn:Ha; [|discriminate].
  rewrite (store_bytes_other _ _ _ _ a Hst) by lia.
  rewrite lookup_insert_eq. by rewrite (IH _ _ _ Hst).
Qed.

Lemma load_bytes_length (n : nat) : forall (m : mem) (a : Z) (bs : list Z),
  load_bytes m a n = Some bs -> length bs = n.
Proof.
  induction n as [|n IH]; intros m a bs H; simpl in H.
  - by inversion H.
  - destruct (m !! a); [|discriminate].
    destruct (load_bytes m (a + 1) n) eqn:Hl; [|discriminate].
    inversion H; subst. simpl. f_equal. by apply (IH m (a + 1)%Z).
Qed.

(** [memcpy] leaves at [dst] the bytes that were at [src], returns [dst] and
    touches nothing outside the destination. *)
Lemma memcpy_copies (m m' : mem) (dst src n r : Z) :
  memcpy m dst src n = Some (r, m') ->
  r = dst /\
  load_bytes m' dst (Z.to_nat n) = load_bytes m src (Z.to_nat n) /\
  (forall x, (x < dst \/ dst + n <= x)%Z -> m' !! x = m !! x).
Proof.
  unfold memcpy. case_bool_decide as Hn; [discriminate|].
  destruct (overlap dst src (Z.to_nat n)); [discriminate|].
  destruct (load_bytes m src (Z.to_nat n)) as [bs|] eqn:Hl; [|discriminate].
  destruct (store_bytes m dst bs) as [m1|] eqn:Hs; [|discriminate].
  intros [= <- <-]. pose proof (load_bytes_length _ _ _ _ Hl) as Hlen.
  split; [done|split].
  - rewrite <- Hlen. by apply (store_bytes_load _ m).
  - intros x Hx. apply (store_bytes_other _ _ _ _ _ Hs). lia.
Qed.

(** [memset] fills the bytes at [s] with [c] as a byte, returns [s] and
    touches nothing else. *)
Lemma memset_fills (m m' : mem) (s c n r : Z) :
  memset m s c n = Some (r, m') ->
  r = s /\
  load_bytes m' s (Z.to_nat n) = Some (replicate (Z.to_nat n) (c mod 256)%Z) /\
  (forall x, (x < s \/ s + n <= x)%Z -> m' !! x = m !! x).
Proof.
  unfold memset. case_bool_decide as Hn; [discriminate|].
  destruct (store_bytes m s _) as [m1|] eqn:Hs; [|discriminate].
  intros [= <- <-]. split; [done|split].
  - rewrite <- (length_replicate (Z.to_nat n) (c mod 256)%Z) at 1.
    by apply (store_bytes_load _ m).
  - intros x Hx. apply (store_bytes_other _ _ _ _ _ Hs).
    rewrite length_replicate. lia.
Qed.

(** ** The SunOS user header *)

Section SunOSHeader.

Variable sys : string -> gmap string macro -> gmap string macro.

Lemma sunos_header_macros M :
  M !! "_MOS_OS_SUNUSER_H_" = None ->
  let T := macros (mos_os_SunOS_user_h sys (start M)) in
  T !! "bcopy" =
    Some (MFun ["src"; "dst"; "len"]
            (ECall "memcpy"
               [EParen (EId "dst"); EParen (EId "src"); EParen (EId "len")])) /\
  T !! "bzero" =
    Some (MFun ["addr"; "len"]
            (ECall "memset" [EParen (EId "addr"); ENum 0; EParen (EId "len")])).
Proof.
  intros Hg T. subst T. unfold mos_os_SunOS_user_h, ifndef.
  rewrite (proj2 (not_defined_start _ _) Hg). unfold seq.
  split; cpp_lookup; reflexivity.
Qed.

Lemma expand_bcopy M (s d l : cexpr) :
  M !! "_MOS_OS_SUNUSER_H_" = None ->
  expand_call (macros (mos_os_SunOS_user_h sys (start M))) "bcopy" [s; d; l] =
    Some (ECall "memcpy" [EParen d; EParen s; EParen l]).
Proof.
  intros Hg. unfold expand_call.
  rewrite (proj1 (sunos_header_macros M Hg)). reflexivity.
Qed.

Lemma expand_bzero M (a l : cexpr) :
  M !! "_MOS_OS_SUNUSER_H_" = None ->
  expand_call (macros (mos_os_SunOS_user_h sys (start M))) "bzero" [a; l] =
    Some (ECall "memset" [EParen a; ENum 0; EParen l]).
Proof.
  intros Hg. unfold expand_call.
  rewrite (proj2 (sunos_header_macros M Hg)). reflexivity.
Qed.

(** C10.  After the header, [bcopy(src, dst, len)] is [memcpy] with the first
    two arguments exchanged, and [bzero(addr, len)] is [memset] with a zero
    in the middle: the invocations expand to those calls, with each argument
    in parentheses, and they do to memory what [memcpy(dst, src, len)] and
    [memset(addr, 0, len)] do, for all argument expressions and so for all
    addresses and lengths. *)
Theorem sunos_macros_refine_libc (M : gmap string macro)
    (ρ : gmap string Z) (m : mem) :
  M !! "_MOS_OS_SUNUSER_H_" = None ->
  let T := macros (mos_os_SunOS_user_h sys (start M)) in
  (forall s d l : cexpr,
     expand_call T "bcopy" [s; d; l] =
       Some (ECall "memcpy" [EParen d; EParen s; EParen l]) /\
     invoke T "bcopy" [s; d; l] ρ m = eval ρ (ECall "memcpy" [d; s; l]) m) /\
  (forall a l : cexpr,
     expand_call T "bzero" [a; l] =
       Some (ECall "memset" [EParen a; ENum 0; EParen l]) /\
     invoke T "bzero" [a; l] ρ m = eval ρ (ECall "memset" [a; ENum 0; l]) m) /\
  (forall src dst len : Z,
     invoke T "bcopy" [ENum src; ENum dst; ENum len] ρ m =
       bcopy_spec m src dst len) /\
  (forall addr len : Z,
     invoke T "bzero" [ENum addr; ENum len] ρ m = bzero_spec m addr len).
Proof.
  intros Hg T. subst T. unfold invoke.
  split; [|split; [|split]].
  - intros s d l. rewrite expand_bcopy by done. split; reflexivity.
  - intros a l. rewrite expand_bzero by done. split; reflexivity.
  - intros src dst len. rewrite expand_bcopy by done. reflexivity.
  - intros addr len. rewrite expand_bzero by done. reflexivity.
Qed.

(** In the order of BSD: the bytes go from the first argument of [bcopy] to
    the second. *)
Lemma bcopy_moves_source_to_destination (M : gmap string macro)
    (ρ : gmap string Z) (m m' : mem) (src dst len r : Z) :
  M !! "_MOS_OS_SUNUSER_H_" = None ->
  invoke (macros (mos_os_SunOS_user_h sys (start M))) "bcopy"
    [ENum src; ENum dst; ENum len] ρ m = Some (r, m') ->
  r = dst /\
  load_bytes m' dst (Z.to_nat len) = load_bytes m src (Z.to_nat len).
Proof.
  intros Hg. unfold invoke. rewrite expand_bcopy by done.
  intros H. destruct (memcpy_copies m m' dst src len r H) as (? & ? & _).
  done.
Qed.

Lemma bzero_clears (M : gmap string macro) (ρ : gmap string Z) (m m' : mem)
    (addr len r : Z) :
  M !! "_MOS_OS_SUNUSER_H_" = None ->
  invoke (macros (mos_os_SunOS_user_h sys (start M))) "bzero"
    [ENum addr; ENum len] ρ m = Some (r, m') ->
  r = addr /\
  load_bytes m' addr (Z.to_nat len) = Some (replicate (Z.to_nat len) 0%Z).
Proof.
  intros Hg. unfold invoke. rewrite expand_bzero by done.
  intros H. destruct (memset_fills m m' addr 0 len r H) as (? & ? & _).
  done.
Qed.

End SunOSHeader.

(** ** The error translator *)

(** C2.  The translation of OS errors covers every integer: a native code
    that is in the table is given exactly the canonical code listed for it, a
    native code that is not in the table is given the fallback, and there is
    no third outcome. *)
Theorem os_translation_total (os_table : gmap Z positive) :
  (forall code c, os_table !! code = Some c ->
     mos_windows_error_to_err os_table code = Known c) /\
  (forall code, os_table !! code = None ->
     mos_windows_error_to_err os_table code = Unknown) /\
  (forall code,
     mos_windows_error_to_err os_table code = Unknown \/
     exists c, os_table !! code = Some c /\
               mos_windows_error_to_err os_table code = Known c).
Proof.
  unfold mos_windows_error_to_err. split; [|split].
  - by intros code c ->.
  - by intros code ->.
  - intros code. destruct (os_table !! code); eauto.
Qed.

Section Translator.

Variable os_table : gmap Z positive.
Variable wsa_table : gmap Z positive.
Variable render : Z -> list Z.

(** C3, as the declaration has it.  [mos_windows_strerror] stores the text
    of the native code, cut to leave room for the terminating zero, into the
    first [msgbufsz] bytes at [msgbuf] and nowhere else, and the text is
    whole where it fits.  What it returns is the buffer, the [const char *]
    that [mos_os-Windows-user.h] declares; no length comes back. *)
Theorem strerror_stays_in_buffer
    (sys : string -> gmap string macro -> gmap string macro)
    (M : gmap string macro) (error msgbuf : Z) (msgbufsz : nat) (m : mem) :
  M !! "_MOS_OS_WINDOWS_USER_H_" = None ->
  (forall i, (i < msgbufsz)%nat -> is_Some (m !! (msgbuf + Z.of_nat i)%Z)) ->
  IProto MOSAPI_MOSCConv const_char_ptr "mos_windows_strerror"
    [TNamed "DWORD"; TPtr TChar; TNamed "size_t"]
    ∈ out (mos_os_Windows_user_h sys (start M)) /\
  exists m',
    mos_windows_strerror render error msgbuf msgbufsz m = Some (msgbuf, m') /\
    (forall a, (a < msgbuf \/ msgbuf + Z.of_nat msgbufsz <= a)%Z ->
       m' !! a = m !! a) /\
    (forall room, msgbufsz = S room ->
       let text := take room (render error) in
       load_bytes m' msgbuf (S (length text)) = Some (text ++ [0%Z]) /\
       (truncated render error msgbufsz = false -> text = render error)).
Proof.
  intros Hg Halloc. split; [by apply windows_header_declares_strerror|].
  unfold mos_windows_strerror. destruct msgbufsz as [|room].
  - exists m. split; [done|split; [done|]]. intros k Hk. discriminate.
  - set (text := take room (render error)).
    assert (Hlen : (length (text ++ [0%Z]) <= S room)%nat).
    { rewrite length_app, Nat.add_comm. simpl. subst text.
      rewrite length_take. lia. }
    destruct (store_bytes_is_Some (text ++ [0%Z]) m msgbuf) as [m' Hst].
    { intros i Hi. apply Halloc. lia. }
    rewrite Hst. exists m'. split; [done|]. split.
    + intros a Ha. apply (store_bytes_other _ _ _ _ _ Hst). lia.
    + intros room' [= <-]. fold text. split.
      * replace (S (length text)) with (length (text ++ [0%Z]))
          by (rewrite length_app, Nat.add_comm; reflexivity).
        by apply (store_bytes_load _ m).
      * unfold truncated. intros Hfit%bool_decide_eq_false.
        subst text. apply take_ge. lia.
Qed.

End Translator.

(** ** The registry accessor *)

Lemma last_natives_snoc (iop : OperationContext) (f : failure) :
  last (natives (iop ++ [f])) = Some (native f).
Proof. unfold natives. rewrite map_app. simpl. apply last_snoc. Qed.

Section Registry.

Variable os_table : gmap Z positive.
Variable wsa_table : gmap Z positive.
Variable render : Z -> list Z.
Variable parse_u32 : list Z -> option Z.
Variable malformed : positive.

(** C1.  [mos_registry_getu32] gives the default only for a value that is
    not there: then it stores [default_value] and returns success.  For a
    value that is there and does not parse, and for a key that cannot be
    opened, it returns an error and stores nothing. *)
Theorem getu32_default_only_when_absent (reg : registry)
    (iop : OperationContext) (key_path value_name : string)
    (default_value : Z) :
  let r := mos_registry_getu32 os_table render parse_u32 malformed reg iop
             key_path value_name default_value in
  (forall vs, reg !! key_path = Some (Values vs) -> vs !! value_name = None ->
     r = (iop, Success, Some default_value)) /\
  (forall vs data, reg !! key_path = Some (Values vs) ->
     vs !! value_name = Some data -> parse_u32 data = None ->
     (exists c, r.1.2 = Failure c) /\ r.2 = None) /\
  (reg !! key_path = None \/
   (exists code, reg !! key_path = Some (Inaccessible code)) ->
     (exists c, r.1.2 = Failure c) /\ r.2 = None).
Proof.
  intros r. subst r. unfold mos_registry_getu32, query.
  split; [|split].
  - intros vs -> ->. reflexivity.
  - intros vs data -> -> ->. simpl. eauto.
  - intros [-> | (code & ->)]; simpl; eauto.
Qed.

(** C8.  Translating a native error with a context keeps the native code:
    [mos_windows_error] and [mos_windows_wsa_error] return the canonical code
    and leave the native code as the newest record of the context, after all
    the records that were there.  A registry operation on a key that the host
    refuses with a native code does the same, as does a raw read of a value
    that is not there, and no registry operation removes a record. *)
Theorem native_code_retained (reg : registry) (iop : OperationContext)
    (code : Z) (key_path value_name : string) (default_value : Z)
    (data : list Z) :
  let r := mos_windows_error os_table render iop code in
  let w := mos_windows_wsa_error wsa_table render iop code in
  let g := mos_registry_getmachinevalue os_table render reg iop key_path
             value_name in
  let u := mos_registry_getu32 os_table render parse_u32 malformed reg iop
             key_path value_name default_value in
  let p := mos_registry_setmachinevalue os_table render reg iop key_path
             value_name data in
  (r.2 = mos_windows_error_to_err os_table code /\
   iop `prefix_of` r.1 /\ last (natives r.1) = Some code /\
   last r.1 = Some (MkFailure OsSpace code (render code))) /\
  (w.2 = mos_windows_wsa_error_to_err wsa_table code /\
   iop `prefix_of` w.1 /\ last (natives w.1) = Some code /\
   last w.1 = Some (MkFailure NetworkSpace code (render code))) /\
  (iop `prefix_of` g.1.1 /\ iop `prefix_of` u.1.1 /\ iop `prefix_of` p.1.2) /\
  (query reg key_path value_name = KeyInaccessible code ->
     let c := Failure (mos_windows_error_to_err os_table code) in
     (g.1.2 = c /\ last (natives g.1.1) = Some code) /\
     (u.1.2 = c /\ last (natives u.1.1) = Some code) /\
     (p.2 = c /\ last (natives p.1.2) = Some code)) /\
  (query reg key_path value_name = ValueAbsent ->
     g.1.2 = Failure (mos_windows_error_to_err os_table ERROR_FILE_NOT_FOUND) /\
     last (natives g.1.1) = Some ERROR_FILE_NOT_FOUND).
Proof.
  intros r w g u p. subst r w g u p.
  unfold mos_registry_getmachinevalue, mos_registry_getu32,
    mos_registry_setmachinevalue, query, mos_windows_error,
    mos_windows_wsa_error.
  split; [|split; [|split; [|split]]].
  - simpl. rewrite last_natives_snoc, last_snoc. repeat split. by eexists.
  - simpl. rewrite last_natives_snoc, last_snoc. repeat split. by eexists.
  - destruct (reg !! key_path) as [[e | vs] |]; simpl.
    + repeat split; by eexists.
    + destruct (vs !! value_name) as [bs |]; simpl;
        [destruct (parse_u32 bs)|]; simpl;
        repeat split; first [done | by eexists].
    + repeat split; by eexists.
  - destruct (reg !! key_path) as [[e | vs] |]; simpl.
    + intros [= ->]. by rewrite last_natives_snoc.
    + destruct (vs !! value_name); discriminate.
    + intros [= <-]. by rewrite last_natives_snoc.
  - destruct (reg !! key_path) as [[e | vs] |]; simpl; try discriminate.
    destruct (vs !! value_name); [discriminate|].
    intros _. simpl. by rewrite last_natives_snoc.
Qed.

End Registry.

(** * The embedding at work on the sample platform *)

Example user_build_declares_three :
  out (mos_registry_Windows_h sample_sys (start ∅)) =
    [IDefine "_MOS_REGISTRY_WINDOWS_H_" MFlag;
     IInclude "mos_iop.h";
     IProto MOSAPI_MOSCConv TInt "mos_registry_getmachinevalue"
       [TNamed "mosiop_t"; const_char_ptr; const_char_ptr;
        TPtr (TPtr TVoid); uint32_ptr; uint32_ptr; uint32_ptr];
     IProto MOSAPI_MOSCConv TInt "mos_registry_getu32"
       [TNamed "mosiop_t"; const_char_ptr; const_char_ptr; uint32_ptr;
        TNamed "uint32_t"];
     IProto MOSAPI_MOSCConv TInt "mos_registry_setmachinevalue"
       [TNamed "mosiop_t"; const_char_ptr; const_char_ptr;
        TPtr (TConst TVoid); TNamed "uint32_t"]].
Proof. vm_compute. reflexivity. Qed.

Example second_inclusion_is_empty :
  out (mos_registry_Windows_h sample_sys
         (start (macros (mos_registry_Windows_h sample_sys (start ∅))))) = [].
Proof. vm_compute. reflexivity. Qed.

Example bcopy_exchanges_arguments :
  expand_call (macros (mos_os_SunOS_user_h sample_sys (start ∅))) "bcopy"
    [EId "from"; EId "to"; ENum 8]
  = Some (ECall "memcpy"
            [EParen (EId "to"); EParen (EId "from"); EParen (ENum 8)]).
Proof. vm_compute. reflexivity. Qed.

Example bcopy_of_its_own_parameter_names :
  expand_call (macros (mos_os_SunOS_user_h sample_sys (start ∅))) "bcopy"
    [EId "dst"; EId "src"; EId "len"]
  = Some (ECall "memcpy"
            [EParen (EId "src"); EParen (EId "dst"); EParen (EId "len")]).
Proof. vm_compute. reflexivity. Qed.

Example bcopy_wants_three_arguments :
  expand_call (macros (mos_os_SunOS_user_h sample_sys (start ∅))) "bcopy"
    [EId "from"; EId "to"] = None.
Proof. vm_compute. reflexivity. Qed.

Example memcpy_of_overlapping_objects : memcpy sample_mem 100 101 2 = None.
Proof. vm_compute. reflexivity. Qed.

Example memset_outside_memory : memset sample_mem 103 0 3 = None.
Proof. vm_compute. reflexivity. Qed.

Example parse_decimal_30 : parse_decimal (bytes "30") = Some 30%Z.
Proof. vm_compute. reflexivity. Qed.

Example parse_decimal_largest : parse_decimal (bytes "4294967295") = Some (2 ^ 32 - 1)%Z.
Proof. vm_compute. reflexivity. Qed.

Example parse_decimal_too_large : parse_decimal (bytes "4294967296") = None.
Proof. vm_compute. reflexivity. Qed.

Example parse_decimal_no_number : parse_decimal (bytes "soon") = None.
Proof. vm_compute. reflexivity. Qed.

Example getu32_reads_a_number :
  mos_registry_getu32 sample_os_table sample_render parse_decimal 9
    {[ "Software\RoboSanta" := Values {[ "Timeout" := bytes "45" ]} ]} []
    "Software\RoboSanta" "Timeout" 30
  = ([], Success, Some 45%Z).
Proof. vm_compute. reflexivity. Qed.

Example strerror_without_room :
  mos_windows_strerror long_render 1 100 0 sample_mem = Some (100%Z, sample_mem).
Proof. vm_compute. reflexivity. Qed.

(** * The properties at work on the sample platform *)

Lemma sample_sys_keeps file x :
  x ∉ ["MOSCConv"; "MOSAPI"; "INT64_MAX"; "INT32_MAX"] ->
  keeps sample_sys file x.
Proof.
  intros Hx M. rewrite !not_elem_of_cons in Hx.
  destruct Hx as (H1 & H2 & H3 & H4 & _).
  unfold sample_sys. repeat case_decide; rewrite ?lookup_insert_ne by done; done.
Qed.

Lemma sample_sys_leaves_tests : stdint_leaves_tests sample_sys.
Proof.
  repeat split; apply sample_sys_keeps;
    rewrite !not_elem_of_cons; repeat split; try discriminate;
    apply not_elem_of_nil.
Qed.

Lemma sample_sys_keeps_KERNEL : keeps sample_sys "mos_iop.h" "_KERNEL".
Proof.
  apply sample_sys_keeps.
  rewrite !not_elem_of_cons; repeat split; try discriminate;
    apply not_elem_of_nil.
Qed.

(** A kernel build gets no declaration of the write operation, a user build
    gets it. *)
Lemma setmachinevalue_only_outside_kernel_witness :
  ~ declares "mos_registry_setmachinevalue"
      (mos_registry_Windows_h sample_sys (start {[ "_KERNEL" := MFlag ]})) /\
  declares "mos_registry_setmachinevalue"
    (mos_registry_Windows_h sample_sys (start ∅)).
Proof.
  split.
  - apply (setmachinevalue_only_outside_kernel sample_sys
             {[ "_KERNEL" := MFlag ]} sample_sys_keeps_KERNEL).
    exists MFlag. vm_compute. reflexivity.
  - apply (setmachinevalue_only_outside_kernel sample_sys ∅
             sample_sys_keeps_KERNEL); vm_compute; reflexivity.
Defined.

(** A 64-bit build and a 32-bit build, with the limits of [<stdint.h>]. *)
Lemma ssize_max_matches_pointer_width_witness :
  const_value 3
    (macros (mos_basic_types_win_h sample_sys (start {[ "_WIN64" := MFlag ]})))
    (EId "SSIZE_MAX") = Some (2 ^ 63 - 1)%Z /\
  const_value 3
    (macros (mos_basic_types_win_h sample_sys (start ∅)))
    (EId "SSIZE_MAX") = Some (2 ^ 31 - 1)%Z.
Proof.
  split.
  - destruct (ssize_max_matches_pointer_width sample_sys
                sample_sys_leaves_tests {[ "_WIN64" := MFlag ]})
      as (_ & _ & H).
    destruct H as (_ & _ & H); [vm_compute; reflexivity ..|].
    apply H; vm_compute; reflexivity.
  - destruct (ssize_max_matches_pointer_width sample_sys
                sample_sys_leaves_tests ∅) as (_ & _ & H).
    destruct H as (_ & _ & H); [vm_compute; reflexivity ..|].
    apply H; vm_compute; reflexivity.
Defined.

(** C6 as the specification words it fails: a build that already has a [NULL] gets
    another definition of [NULL] from the header. *)
Lemma NULL_is_redefined :
  ~ (forall sys M x,
       stdint_leaves_tests sys -> is_Some (M !! x) ->
       ~ defines x (mos_basic_types_win_h sys (start M))).
Proof.
  intros H.
  apply (H sample_sys {[ "NULL" := MObj (ENum 0) ]} "NULL"
           sample_sys_leaves_tests).
  - exists (MObj (ENum 0)). vm_compute. reflexivity.
  - exists (MObj (EParen (ECast (TPtr TVoid) (ENum 0)))).
    vm_compute. do 3 right. left.
Qed.

Lemma definitions_guarded_except_NULL_witness :
  ~ defines "NAN"
      (mos_basic_types_win_h sample_sys
         (start {[ "NAN" := MObj (EId "__builtin_nanf") ]})) /\
  defines "NULL"
    (mos_basic_types_win_h sample_sys (start {[ "NULL" := MObj (ENum 0) ]})).
Proof.
  split.
  - apply (definitions_guarded_except_NULL sample_sys sample_sys_leaves_tests
             {[ "NAN" := MObj (EId "__builtin_nanf") ]}).
    eexists. vm_compute. reflexivity.
  - apply (definitions_guarded_except_NULL sample_sys sample_sys_leaves_tests
             {[ "NULL" := MObj (ENum 0) ]}).
    vm_compute. reflexivity.
Defined.

(** C9 as the specification words it fails: [mos_windows_strerror] does not return an
    [int]. *)
Lemma strerror_does_not_return_int :
  ~ (forall sys M attrs ret name params,
       IProto attrs ret name params ∈ out (mos_os_Windows_user_h sys (start M)) ->
       ret = TInt).
Proof.
  intros H.
  specialize (H sample_sys ∅ _ _ _ _
                (windows_header_declares_strerror sample_sys ∅ eq_refl)).
  discriminate H.
Qed.

Lemma exported_return_types_witness :
  (forall attrs ret params,
     IProto attrs ret "mos_registry_getu32" params
       ∈ out (mos_os_Windows_user_h sample_sys (start ∅)) ->
     ret = TInt) /\
  IProto MOSAPI_MOSCConv const_char_ptr "mos_windows_strerror"
    [TNamed "DWORD"; TPtr TChar; TNamed "size_t"]
    ∈ out (mos_os_Windows_user_h sample_sys (start ∅)).
Proof.
  split.
  - intros attrs ret params Hin.
    exact (proj1 (exported_return_types sample_sys ∅) _ _ _ _ Hin).
  - apply (exported_return_types sample_sys ∅). vm_compute. reflexivity.
Defined.

(** [bzero(p, 2)] with [p] at 101 clears two bytes. *)
Lemma sunos_macros_refine_libc_witness :
  invoke (macros (mos_os_SunOS_user_h sample_sys (start ∅))) "bcopy"
    [ENum 103; ENum 100; ENum 2] ∅ sample_mem
  = memcpy sample_mem 100 103 2 /\
  invoke (macros (mos_os_SunOS_user_h sample_sys (start ∅))) "bzero"
    [ENum 101; ENum 2] ∅ sample_mem
  = memset sample_mem 101 0 2.
Proof.
  split.
  - apply (sunos_macros_refine_libc sample_sys ∅ ∅ sample_mem).
    vm_compute. reflexivity.
  - apply (sunos_macros_refine_libc sample_sys ∅ ∅ sample_mem).
    vm_compute. reflexivity.
Defined.

(** Native code 5 is in the sample table, native code 7 is not. *)
Lemma os_translation_total_witness :
  mos_windows_error_to_err sample_os_table 5 = Known 2 /\
  mos_windows_error_to_err sample_os_table 7 = Unknown.
Proof.
  split.
  - apply (os_translation_total sample_os_table). vm_compute. reflexivity.
  - apply (os_translation_total sample_os_table). vm_compute. reflexivity.
Defined.

Lemma sample_mem_allocated i :
  (i < 4)%nat -> is_Some (sample_mem !! (100 + Z.of_nat i)%Z).
Proof.
  intros Hi. destruct i as [|[|[|[|i]]]]; [| | | |lia];
    eexists; vm_compute; reflexivity.
Qed.

(** C3 as the specification words it fails: a text that fits a buffer of four bytes
    and a text that is cut to fit it leave the same buffer and the same
    result, so nothing that comes back tells whether the text was cut. *)
Lemma strerror_reports_no_length :
  ~ (exists detect : Z -> Z -> nat -> option (Z * mem) -> bool,
       forall render error msgbuf msgbufsz m,
         detect error msgbuf msgbufsz
           (mos_windows_strerror render error msgbuf msgbufsz m)
         = truncated render error msgbufsz).
Proof.
  intros (detect & H).
  pose proof (H short_render 1%Z 100%Z 4%nat sample_mem) as Hs.
  pose proof (H long_render 1%Z 100%Z 4%nat sample_mem) as Hl.
  assert (Heq : mos_windows_strerror short_render 1 100 4 sample_mem =
                mos_windows_strerror long_render 1 100 4 sample_mem)
    by (vm_compute; reflexivity).
  rewrite Heq, Hl in Hs. vm_compute in Hs. discriminate Hs.
Qed.

(** The long text is cut to three characters and a zero, and the byte after
    the buffer is as it was. *)
Lemma strerror_stays_in_buffer_witness :
  exists m',
    mos_windows_strerror long_render 1 100 4 sample_mem = Some (100%Z, m') /\
    m' !! 104%Z = sample_mem !! 104%Z /\
    load_bytes m' 100 4 = Some (bytes "abc" ++ [0%Z]).
Proof.
  destruct (strerror_stays_in_buffer long_render sample_sys ∅ 1 100 4
              sample_mem (lookup_empty _) sample_mem_allocated)
    as (_ & m' & Hr & Hout & Htext).
  exists m'. split; [exact Hr|]. split.
  - apply Hout. right. vm_compute. discriminate.
  - exact (proj1 (Htext 3%nat eq_refl)).
Defined.

(** The examples of the specification: [Timeout] is read with default 30
    from a registry that has no such value, and from one where it is no
    number. *)
Lemma getu32_default_only_when_absent_witness :
  mos_registry_getu32 sample_os_table sample_render parse_decimal 9
    sample_registry [] "Software\RoboSanta" "Timeout" 30
  = ([], Success, Some 30%Z) /\
  (let r := mos_registry_getu32 sample_os_table sample_render parse_decimal 9
              malformed_registry [] "Software\RoboSanta" "Timeout" 30 in
   (exists c, r.1.2 = Failure c) /\ r.2 = None).
Proof.
  split.
  - apply (proj1 (getu32_default_only_when_absent sample_os_table
                    sample_render parse_decimal 9 sample_registry []
                    "Software\RoboSanta" "Timeout" 30)
             {[ "Name" := bytes "Santa" ]});
      vm_compute; reflexivity.
  - apply (proj1 (proj2 (getu32_default_only_when_absent sample_os_table
                    sample_render parse_decimal 9 malformed_registry []
                    "Software\RoboSanta" "Timeout" 30))
             {[ "Timeout" := bytes "soon" ]} (bytes "soon"));
      vm_compute; reflexivity.
Defined.

(** Reading under a key the host refuses with native code 5 leaves 5 in the
    context. *)
Lemma native_code_retained_witness :
  let u := mos_registry_getu32 sample_os_table sample_render parse_decimal 9
             sample_registry [] "Software\Locked" "Timeout" 30 in
  u.1.2 = Failure (Known 2) /\ last (natives u.1.1) = Some 5%Z.
Proof.
  apply (native_code_retained sample_os_table sample_wsa_table sample_render
           parse_decimal 9 sample_registry [] 5 "Software\Locked" "Timeout"
           30 []).
  vm_compute. reflexivity.
Defined.

(** * Further properties of the headers *)

(** ** The SunOS macros on memory *)

Lemma load_bytes_is_Some (n : nat) : forall (m : mem) (a : Z),
  allocated m a n -> is_Some (load_bytes m a n).
Proof.
  induction n as [|n IH]; intros m a H; simpl; [eauto|].
  destruct (H 0%nat) as [v Hv]; [lia|].
  rewrite Z.add_0_r in Hv. rewrite Hv.
  destruct (IH m (a + 1)%Z) as [bs Hbs].
  { intros i Hi. destruct (H (S i)) as [w Hw]; [lia|].
    replace (a + 1 + Z.of_nat i)%Z with (a + Z.of_nat (S i))%Z by lia. eauto. }
  rewrite Hbs. eauto.
Qed.

Lemma load_bytes_allocated (n : nat) : forall (m : mem) (a : Z) (bs : list Z),
  load_bytes m a n = Some bs -> allocated m a n.
Proof.
  induction n as [|n IH]; intros m a bs H i Hi; [lia|]. simpl in H.
  destruct (m !! a) eqn:Ha; [|discriminate].
  destruct (load_bytes m (a + 1) n) eqn:Hl; [|discriminate].
  destruct i as [|i].
  - rewrite Z.add_0_r. eauto.
  - replace (a + Z.of_nat (S i))%Z with (a + 1 + Z.of_nat i)%Z by lia.
    apply (IH m (a + 1)%Z l Hl). lia.
Qed.

Lemma load_bytes_ext (n : nat) : forall (m m' : mem) (a : Z),
  (forall i, (i < n)%nat -> m' !! (a + Z.of_nat i)%Z = m !! (a + Z.of_nat i)%Z) ->
  load_bytes m' a n = load_bytes m a n.
Proof.
  induction n as [|n IH]; intros m m' a H; simpl; [done|].
  pose proof (H 0%nat ltac:(lia)) as H0. rewrite Z.add_0_r in H0. rewrite H0.
  rewrite (IH m m' (a + 1)%Z); [done|].
  intros i Hi. specialize (H (S i) ltac:(lia)).
  by replace (a + 1 + Z.of_nat i)%Z with (a + Z.of_nat (S i))%Z by lia.
Qed.

(** Storing the bytes that are there already changes nothing. *)
Lemma store_bytes_same (bs : list Z) : forall (m m' : mem) (a : Z),
  load_bytes m a (length bs) = Some bs ->
  store_bytes m a bs = Some m' -> m' = m.
Proof.
  induction bs as [|b bs IH]; intros m m' a Hl Hs; simpl in *.
  - by inversion Hs.
  - destruct (m !! a) as [v|] eqn:Ha; [|discriminate].
    destruct (load_bytes m (a + 1) (length bs)) eqn:Hl'; [|discriminate].
    injection Hl as -> ->.
    rewrite (insert_id m a b Ha) in Hs. by apply (IH m m' (a + 1)%Z).
Qed.

Lemma overlap_false (a b : Z) (n : nat) :
  (a + Z.of_nat n <= b \/ b + Z.of_nat n <= a)%Z -> overlap a b n = false.
Proof. intros H. unfold overlap. apply bool_decide_eq_false. lia. Qed.

Lemma overlap_true (a b : Z) (n : nat) :
  (a < b + Z.of_nat n /\ b < a + Z.of_nat n)%Z -> overlap a b n = true.
Proof. intros H. unfold overlap. by apply bool_decide_eq_true. Qed.

Lemma memcpy_is_Some (m : mem) (dst src n : Z) :
  (0 <= n)%Z ->
  allocated m src (Z.to_nat n) -> allocated m dst (Z.to_nat n) ->
  (src + n <= dst \/ dst + n <= src)%Z ->
  exists m', memcpy m dst src n = Some (dst, m').
Proof.
  intros Hn Hsrc Hdst Hdis. unfold memcpy.
  rewrite bool_decide_eq_false_2 by lia.
  rewrite overlap_false by lia.
  destruct (load_bytes_is_Some _ _ _ Hsrc) as [bs Hbs]. rewrite Hbs.
  destruct (store_bytes_is_Some bs m dst) as [m' Hm'].
  { rewrite (load_bytes_length _ _ _ _ Hbs). exact Hdst. }
  rewrite Hm'. eauto.
Qed.

Lemma memset_is_Some (m : mem) (s c n : Z) :
  (0 <= n)%Z -> allocated m s (Z.to_nat n) ->
  exists m', memset m s c n = Some (s, m').
Proof.
  intros Hn Hs. unfold memset. rewrite bool_decide_eq_false_2 by lia.
  destruct (store_bytes_is_Some (replicate (Z.to_nat n) (c mod 256)%Z) m s)
    as [m' Hm'].
  { by rewrite length_replicate. }
  rewrite Hm'. eauto.
Qed.

Section SunOSMemory.

Variable sys : string -> gmap string macro -> gmap string macro.
Variable M : gmap string macro.
Hypothesis Hguard : M !! "_MOS_OS_SUNUSER_H_" = None.

Let T := macros (mos_os_SunOS_user_h sys (start M)).

Lemma invoke_bcopy (ρ : gmap string Z) (m : mem) (src dst len : Z) :
  invoke T "bcopy" [ENum src; ENum dst; ENum len] ρ m = memcpy m dst src len.
Proof. unfold invoke, T. rewrite expand_bcopy by done. reflexivity. Qed.

Lemma invoke_bzero (ρ : gmap string Z) (m : mem) (addr len : Z) :
  invoke T "bzero" [ENum addr; ENum len] ρ m = memset m addr 0 len.
Proof. unfold invoke, T. rewrite expand_bzero by done. reflexivity. Qed.

(** X9.  [bcopy] between two allocated ranges that do not meet is defined:
    it returns the destination, leaves there the bytes of the source, and
    changes no byte outside the destination, so the source is as it was. *)
Theorem bcopy_copies_disjoint_ranges (ρ : gmap string Z) (m : mem)
    (src dst len : Z) :
  (0 <= len)%Z ->
  allocated m src (Z.to_nat len) -> allocated m dst (Z.to_nat len) ->
  (src + len <= dst \/ dst + len <= src)%Z ->
  exists m',
    invoke T "bcopy" [ENum src; ENum dst; ENum len] ρ m = Some (dst, m') /\
    load_bytes m' dst (Z.to_nat len) = load_bytes m src (Z.to_nat len) /\
    load_bytes m' src (Z.to_nat len) = load_bytes m src (Z.to_nat len) /\
    is_Some (load_bytes m src (Z.to_nat len)) /\
    (forall x, (x < dst \/ dst + len <= x)%Z -> m' !! x = m !! x).
Proof.
  intros Hn Hsrc Hdst Hdis. rewrite invoke_bcopy.
  destruct (memcpy_is_Some m dst src len Hn Hsrc Hdst Hdis) as [m' Hm'].
  exists m'. split; [done|].
  destruct (memcpy_copies _ _ _ _ _ _ Hm') as (_ & Hcopy & Hframe).
  split; [done|]. split; [|split; [by apply load_bytes_is_Some|done]].
  apply load_bytes_ext. intros i Hi. apply Hframe. lia.
Qed.

(** X10.  [bzero] of an allocated range is defined: it returns the address,
    leaves the range all zero, and changes no byte outside it. *)
Theorem bzero_clears_allocated_range (ρ : gmap string Z) (m : mem)
    (addr len : Z) :
  (0 <= len)%Z -> allocated m addr (Z.to_nat len) ->
  exists m',
    invoke T "bzero" [ENum addr; ENum len] ρ m = Some (addr, m') /\
    load_bytes m' addr (Z.to_nat len) = Some (replicate (Z.to_nat len) 0%Z) /\
    (forall x, (x < addr \/ addr + len <= x)%Z -> m' !! x = m !! x).
Proof.
  intros Hn Ha. rewrite invoke_bzero.
  destruct (memset_is_Some m addr 0 len Hn Ha) as [m' Hm'].
  exists m'. split; [done|].
  destruct (memset_fills _ _ _ _ _ _ Hm') as (_ & Hfill & Hframe). done.
Qed.

(** X11.  [bcopy] is [memcpy], not [memmove]: where the two ranges share a
    byte, and so also where source and destination are the same, the copy is
    undefined. *)
Theorem bcopy_of_overlapping_ranges_undefined (ρ : gmap string Z) (m : mem)
    (src dst len : Z) :
  (dst < src + len /\ src < dst + len)%Z ->
  invoke T "bcopy" [ENum src; ENum dst; ENum len] ρ m = None.
Proof.
  intros Hov. rewrite invoke_bcopy. unfold memcpy.
  case_bool_decide; [done|]. rewrite overlap_true by lia. done.
Qed.

(** X12.  With length zero neither macro touches memory, whatever the
    addresses are: [bcopy] returns the destination and [bzero] the address,
    and memory is as it was. *)
Theorem zero_length_is_no_operation (ρ : gmap string Z) (m : mem)
    (src dst addr : Z) :
  invoke T "bcopy" [ENum src; ENum dst; ENum 0] ρ m = Some (dst, m) /\
  invoke T "bzero" [ENum addr; ENum 0] ρ m = Some (addr, m).
Proof.
  rewrite invoke_bcopy, invoke_bzero. unfold memcpy, memset.
  rewrite bool_decide_eq_false_2 by lia. simpl Z.to_nat.
  rewrite overlap_false by (simpl; lia). done.
Qed.

(** X13.  Copying back changes nothing: after [bcopy(a, b, n)], the call
    [bcopy(b, a, n)] is defined, returns [a] and leaves memory as the first
    copy left it. *)
Theorem bcopy_back_changes_nothing (ρ : gmap string Z) (m m1 : mem)
    (a b n r : Z) :
  invoke T "bcopy" [ENum a; ENum b; ENum n] ρ m = Some (r, m1) ->
  invoke T "bcopy" [ENum b; ENum a; ENum n] ρ m1 = Some (a, m1).
Proof.
  rewrite !invoke_bcopy. intros H1.
  destruct (memcpy_copies _ _ _ _ _ _ H1) as (-> & Hcopy & Hframe).
  unfold memcpy in H1 |- *.
  case_bool_decide as Hn; [discriminate|].
  destruct (overlap b a (Z.to_nat n)) eqn:Hov; [discriminate|].
  assert (Hov' : overlap a b (Z.to_nat n) = false).
  { unfold overlap in *. apply bool_decide_eq_false in Hov.
    apply bool_decide_eq_false. lia. }
  rewrite Hov'.
  destruct (load_bytes m a (Z.to_nat n)) as [bs|] eqn:Hl; [|discriminate].
  destruct (store_bytes m b bs) as [m1'|] eqn:Hs; [|discriminate].
  injection H1 as <-.
  rewrite Hcopy.
  assert (Ha : load_bytes m1' a (Z.to_nat n) = Some bs).
  { rewrite <- Hl. apply load_bytes_ext. intros i Hi. apply Hframe.
    unfold overlap in Hov. apply bool_decide_eq_false in Hov. lia. }
  pose proof (load_bytes_length _ _ _ _ Hl) as Hlen.
  destruct (store_bytes_is_Some bs m1' a) as [m2 Hm2].
  { rewrite Hlen. by apply (load_bytes_allocated _ _ _ bs). }
  rewrite Hm2. rewrite <- Hlen in Ha.
  by rewrite (store_bytes_same _ _ _ _ Ha Hm2).
Qed.

End SunOSMemory.

(** ** Going through a header directive by directive *)

Lemma seq_apply (p q : PP) (s : penv) : (p >>> q) s = q (p s).
Proof. reflexivity. Qed.

Section Transparent.

Variable x : string.

Lemma transparent_skip : transparent x skip.
Proof. intros s. reflexivity. Qed.

Lemma transparent_seq p q :
  transparent x p -> transparent x q -> transparent x (p >>> q).
Proof. intros Hp Hq s. unfold seq. by rewrite Hq, Hp. Qed.

Lemma transparent_emit i : transparent x (emit i).
Proof. intros s. reflexivity. Qed.

Lemma transparent_typedef y t : transparent x (typedef y t).
Proof. intros s. reflexivity. Qed.

Lemma transparent_static_const y t init : transparent x (static_const y t init).
Proof. intros s. reflexivity. Qed.

Lemma transparent_proto attrs ret y params :
  transparent x (proto attrs ret y params).
Proof. intros s. reflexivity. Qed.

Lemma transparent_define y m : y <> x -> transparent x (define y m).
Proof. intros Hy s. by rewrite is_defined_define, decide_False. Qed.

Lemma transparent_include sys f : keeps sys f x -> transparent x (include sys f).
Proof. intros Hk s. by apply is_defined_include_keeps. Qed.

Lemma transparent_ifdef y p q :
  transparent x p -> transparent x q -> transparent x (ifdef y p q).
Proof. intros Hp Hq s. unfold ifdef. destruct (is_defined y s); auto. Qed.

Lemma transparent_ifndef y p q :
  transparent x p -> transparent x q -> transparent x (ifndef y p q).
Proof. intros Hp Hq s. unfold ifndef. destruct (is_defined y s); auto. Qed.

End Transparent.

(** Shows a header transparent for a name; [tac] is for what is known of
    the included files. *)
Ltac transparent_tac tac :=
  repeat first
    [ assumption
    | apply transparent_skip
    | apply transparent_seq
    | apply transparent_typedef
    | apply transparent_static_const
    | apply transparent_proto
    | apply transparent_emit
    | apply transparent_define; discriminate
    | apply transparent_include; tac
    | apply transparent_ifdef
    | apply transparent_ifndef ].

Lemma monotone_skip : monotone skip.
Proof. intros s i H. exact H. Qed.

Lemma monotone_seq p q : monotone p -> monotone q -> monotone (p >>> q).
Proof. intros Hp Hq s i H. apply Hq, Hp, H. Qed.

Lemma monotone_emit j : monotone (emit j).
Proof. intros s i H. simpl. apply elem_of_app. by left. Qed.

Lemma monotone_define x m : monotone (define x m).
Proof. intros s i H. simpl. apply elem_of_app. by left. Qed.

Lemma monotone_include sys f : monotone (include sys f).
Proof. intros s i H. simpl. apply elem_of_app. by left. Qed.

Lemma monotone_ifdef x p q : monotone p -> monotone q -> monotone (ifdef x p q).
Proof. intros Hp Hq s i H. unfold ifdef. destruct (is_defined x s); auto. Qed.

Lemma monotone_ifndef x p q : monotone p -> monotone q -> monotone (ifndef x p q).
Proof. intros Hp Hq s i H. unfold ifndef. destruct (is_defined x s); auto. Qed.

Ltac monotone_tac :=
  repeat first
    [ assumption
    | apply monotone_skip
    | apply monotone_seq
    | apply monotone_emit
    | apply monotone_define
    | apply monotone_include
    | apply monotone_ifdef
    | apply monotone_ifndef ].

(** A header under an include guard does nothing the second time, if what
    follows the definition of the guard leaves the guard alone. *)
Lemma include_guard_idempotent (g : string) (body : PP) (s : penv) :
  transparent g body ->
  let h := ifndef g (define g MFlag >>> body) skip in
  h (h s) = h s.
Proof.
  intros Hb h. subst h. unfold ifndef at 2 3.
  destruct (is_defined g s) eqn:Hg.
  - unfold skip. unfold ifndef. by rewrite Hg.
  - unfold ifndef. rewrite seq_apply, Hb, is_defined_define.
    by rewrite decide_True.
Qed.

Section Idempotent.

Variable sys : string -> gmap string macro -> gmap string macro.
Hypothesis Hsys : forall f g, g ∈ include_guards -> keeps sys f g.

Lemma keeps_guard f g :
  bool_decide (g ∈ include_guards) = true -> keeps sys f g.
Proof. intros H. apply Hsys. by apply bool_decide_eq_true in H. Qed.

Lemma registry_header_transparent_guards g :
  g <> "_MOS_REGISTRY_WINDOWS_H_" ->
  bool_decide (g ∈ include_guards) = true ->
  transparent g (mos_registry_Windows_h sys).
Proof.
  intros Hg Hin. unfold mos_registry_Windows_h.
  apply transparent_ifndef; [|apply transparent_skip].
  apply transparent_seq; [by apply transparent_define|].
  transparent_tac ltac:(by apply keeps_guard).
Qed.

(** X1.  Each of the four headers may be included twice: read again in the
    state the first reading left, it defines and declares nothing more. *)
Theorem headers_are_idempotent (s : penv) :
  mos_basic_types_win_h sys (mos_basic_types_win_h sys s)
    = mos_basic_types_win_h sys s /\
  mos_os_SunOS_user_h sys (mos_os_SunOS_user_h sys s)
    = mos_os_SunOS_user_h sys s /\
  mos_registry_Windows_h sys (mos_registry_Windows_h sys s)
    = mos_registry_Windows_h sys s /\
  mos_os_Windows_user_h sys (mos_os_Windows_user_h sys s)
    = mos_os_Windows_user_h sys s.
Proof.
  split; [|split; [|split]].
  - apply (include_guard_idempotent "_MOS_BASE_TYPES_WIN_H_").
    transparent_tac ltac:(by apply keeps_guard).
  - apply (include_guard_idempotent "_MOS_OS_SUNUSER_H_").
    transparent_tac ltac:(by apply keeps_guard).
  - apply (include_guard_idempotent "_MOS_REGISTRY_WINDOWS_H_").
    transparent_tac ltac:(by apply keeps_guard).
  - apply (include_guard_idempotent "_MOS_OS_WINDOWS_USER_H_").
    pose proof (registry_header_transparent_guards "_MOS_OS_WINDOWS_USER_H_"
                  ltac:(discriminate) eq_refl).
    transparent_tac ltac:(by apply keeps_guard).
Qed.

End Idempotent.

(** ** The functions the Windows headers declare *)

Lemma is_defined_ifndef x y p q s :
  transparent x p -> transparent x q ->
  is_defined x (ifndef y p q s) = is_defined x s.
Proof. intros Hp Hq. by apply transparent_ifndef. Qed.

Lemma is_defined_proto x attrs ret y params s :
  is_defined x (proto attrs ret y params s) = is_defined x s.
Proof. reflexivity. Qed.

Lemma is_defined_typedef x y t s :
  is_defined x (typedef y t s) = is_defined x s.
Proof. reflexivity. Qed.

Lemma is_defined_static_const x y t init s :
  is_defined x (static_const y t init s) = is_defined x s.
Proof. reflexivity. Qed.

(** Pushes a test of a macro back through the directives before it; [tac]
    is for what is known of the included files. *)
Ltac cpp_back tac :=
  repeat first
    [ rewrite is_defined_emit
    | rewrite is_defined_proto
    | rewrite is_defined_typedef
    | rewrite is_defined_static_const
    | rewrite is_defined_define, decide_False by discriminate
    | rewrite is_defined_include_keeps by tac
    | rewrite is_defined_ifndef by transparent_tac tac ].

Lemma proto_names_app l1 l2 :
  proto_names (l1 ++ l2) = proto_names l1 ++ proto_names l2.
Proof.
  induction l1 as [|i l1 IH]; [done|].
  destruct i; simpl; by rewrite ?IH.
Qed.

Lemma proto_names_define x m s :
  proto_names (out (define x m s)) = proto_names (out s).
Proof. simpl. by rewrite proto_names_app, app_nil_r. Qed.

Lemma proto_names_include sys f s :
  proto_names (out (include sys f s)) = proto_names (out s).
Proof. simpl. by rewrite proto_names_app, app_nil_r. Qed.

Lemma proto_names_proto attrs ret x params s :
  proto_names (out (proto attrs ret x params s)) = proto_names (out s) ++ [x].
Proof. simpl. by rewrite proto_names_app. Qed.

Section DeclaredOnce.

Variable sys : string -> gmap string macro -> gmap string macro.
Hypothesis Hreg : forall f, keeps sys f "_MOS_REGISTRY_WINDOWS_H_".
Hypothesis Huser : forall f, keeps sys f "_MOS_OS_WINDOWS_USER_H_".
Hypothesis Hkernel : forall f, keeps sys f "_KERNEL".

Lemma registry_header_proto_names s :
  proto_names (out (mos_registry_Windows_h sys s)) =
    proto_names (out s) ++
    (if is_defined "_MOS_REGISTRY_WINDOWS_H_" s then []
     else ["mos_registry_getmachinevalue"; "mos_registry_getu32"] ++
          (if is_defined "_KERNEL" s then []
           else ["mos_registry_setmachinevalue"])).
Proof.
  unfold mos_registry_Windows_h, ifndef at 1.
  destruct (is_defined "_MOS_REGISTRY_WINDOWS_H_" s); [by rewrite app_nil_r|].
  rewrite !seq_apply. unfold ifndef. cpp_back ltac:(by auto).
  destruct (is_defined "_KERNEL" s); unfold skip;
    rewrite ?proto_names_proto, proto_names_include, proto_names_define;
    by rewrite <- ?app_assoc.
Qed.

Lemma registry_header_defines_guard s :
  is_defined "_MOS_REGISTRY_WINDOWS_H_" (mos_registry_Windows_h sys s) = true.
Proof.
  unfold mos_registry_Windows_h, ifndef at 1.
  destruct (is_defined "_MOS_REGISTRY_WINDOWS_H_" s) eqn:Hg; [done|].
  rewrite seq_apply.
  assert (Ht : transparent "_MOS_REGISTRY_WINDOWS_H_"
                 (include sys "mos_iop.h" >>>
                  proto MOSAPI_MOSCConv TInt "mos_registry_getmachinevalue"
                    [TNamed "mosiop_t"; const_char_ptr; const_char_ptr;
                     TPtr (TPtr TVoid); uint32_ptr; uint32_ptr; uint32_ptr] >>>
                  proto MOSAPI_MOSCConv TInt "mos_registry_getu32"
                    [TNamed "mosiop_t"; const_char_ptr; const_char_ptr;
                     uint32_ptr; TNamed "uint32_t"] >>>
                  ifndef "_KERNEL"
                    (proto MOSAPI_MOSCConv TInt "mos_registry_setmachinevalue"
                       [TNamed "mosiop_t"; const_char_ptr; const_char_ptr;
                        TPtr (TConst TVoid); TNamed "uint32_t"]) skip))
    by transparent_tac ltac:(by auto).
  rewrite Ht, is_defined_define. by rewrite decide_True.
Qed.

Lemma registry_header_transparent x :
  x <> "_MOS_REGISTRY_WINDOWS_H_" -> keeps sys "mos_iop.h" x ->
  transparent x (mos_registry_Windows_h sys).
Proof.
  intros Hx Hk. unfold mos_registry_Windows_h.
  apply transparent_ifndef; [|apply transparent_skip].
  apply transparent_seq; [by apply transparent_define|].
  transparent_tac ltac:(by auto).
Qed.

Lemma windows_header_proto_names s :
  is_defined "_MOS_OS_WINDOWS_USER_H_" s = false ->
  proto_names (out (mos_os_Windows_user_h sys s)) =
    proto_names (out s) ++
    (if is_defined "_MOS_REGISTRY_WINDOWS_H_" s then []
     else ["mos_registry_getmachinevalue"; "mos_registry_getu32"] ++
          (if is_defined "_KERNEL" s then []
           else ["mos_registry_setmachinevalue"])) ++
    ["mos_windows_error_to_err"; "mos_windows_error";
     "mos_windows_wsa_error_to_err"; "mos_windows_wsa_error";
     "mos_windows_strerror"].
Proof.
  intros Hg. unfold mos_os_Windows_user_h, ifndef at 1. rewrite Hg.
  rewrite !seq_apply.
  rewrite proto_names_define, !proto_names_proto.
  assert (Hva : forall s',
            proto_names (out (ifndef "va_copy"
              (define "va_copy"
                 (MFunText ["dst"; "src"] "do { (dst) = (src); } while (0)"))
              skip s')) = proto_names (out s')).
  { intros s'. unfold ifndef. destruct (is_defined "va_copy" s'); [done|].
    apply proto_names_define. }
  rewrite Hva, !proto_names_define, registry_header_proto_names.
  rewrite proto_names_include.
  assert (Hex : forall s',
            proto_names (out (ifndef "EXCLUDE_INT_LIMIT_DEFS"
              (include sys "ntintsafe.h") skip s')) = proto_names (out s')).
  { intros s'. unfold ifndef.
    destruct (is_defined "EXCLUDE_INT_LIMIT_DEFS" s'); [done|].
    apply proto_names_include. }
  rewrite Hex, !proto_names_include, proto_names_define.
  cpp_back ltac:(by auto).
  by rewrite <- !app_assoc.
Qed.

(** X2.  The user header brings the registry interface with it.  Read on
    its own, or after the registry header, it leaves the same functions
    declared, in the same order and each once: the two reads, the write
    unless the build is a kernel build, and the five of the error
    translator. *)
Theorem registry_functions_declared_once (M : gmap string macro) :
  M !! "_MOS_REGISTRY_WINDOWS_H_" = None ->
  M !! "_MOS_OS_WINDOWS_USER_H_" = None ->
  let L := ["mos_registry_getmachinevalue"; "mos_registry_getu32"] ++
           (if is_defined "_KERNEL" (start M) then []
            else ["mos_registry_setmachinevalue"]) ++
           ["mos_windows_error_to_err"; "mos_windows_error";
            "mos_windows_wsa_error_to_err"; "mos_windows_wsa_error";
            "mos_windows_strerror"] in
  proto_names (out (mos_os_Windows_user_h sys (start M))) = L /\
  proto_names
    (out (mos_os_Windows_user_h sys (mos_registry_Windows_h sys (start M))))
    = L /\
  NoDup L.
Proof.
  intros HR HU L. subst L.
  apply not_defined_start in HR, HU.
  split; [|split].
  - rewrite windows_header_proto_names by done. rewrite HR. done.
  - rewrite windows_header_proto_names.
    + rewrite registry_header_defines_guard, registry_header_proto_names, HR.
      done.
    + rewrite registry_header_transparent by (done || auto). done.
  - destruct (is_defined "_KERNEL" (start M));
      apply (bool_decide_unpack _); vm_compute; exact I.
Qed.

End DeclaredOnce.

Lemma elem_of_out_define_here x m s : IDefine x m ∈ out (define x m s).
Proof. simpl. apply elem_of_app. right. left. Qed.

Lemma elem_of_out_include_here sys f s : IInclude f ∈ out (include sys f s).
Proof. simpl. apply elem_of_app. right. left. Qed.

Lemma registry_header_monotone sys : monotone (mos_registry_Windows_h sys).
Proof. unfold mos_registry_Windows_h. monotone_tac. Qed.

(** What a header adds under an invariant: the macro [x] stays defined or
    undefined as [b] says, and every item satisfies [P]. *)
Section Invariant.

Variable x : string.
Variable b : bool.
Variable P : item -> Prop.

Let I (s : penv) : Prop := is_defined x s = b /\ Forall P (out s).

Lemma preserves_skip : preserves I skip.
Proof. intros s H. exact H. Qed.

Lemma preserves_seq p q : preserves I p -> preserves I q -> preserves I (p >>> q).
Proof. intros Hp Hq s H. apply Hq, Hp, H. Qed.

Lemma preserves_emit i : P i -> preserves I (emit i).
Proof.
  intros Hi s [Hd HP]. split; [done|]. simpl. apply Forall_app.
  split; [done | by constructor].
Qed.

Lemma preserves_proto attrs ret y params :
  P (IProto attrs ret y params) -> preserves I (proto attrs ret y params).
Proof. apply preserves_emit. Qed.

Lemma preserves_define y m : y <> x -> P (IDefine y m) -> preserves I (define y m).
Proof.
  intros Hy Hi s [Hd HP]. split.
  - by rewrite is_defined_define, decide_False.
  - simpl. apply Forall_app. split; [done | by constructor].
Qed.

Lemma preserves_include sys f :
  keeps sys f x -> P (IInclude f) -> preserves I (include sys f).
Proof.
  intros Hk Hi s [Hd HP]. split.
  - by rewrite is_defined_include_keeps.
  - simpl. apply Forall_app. split; [done | by constructor].
Qed.

Lemma preserves_ifndef y p q :
  preserves I p -> preserves I q -> preserves I (ifndef y p q).
Proof. intros Hp Hq s H. unfold ifndef. destruct (is_defined y s); auto. Qed.

(** The test of [x] itself goes the way [b] says. *)
Lemma preserves_ifndef_defined p q :
  b = true -> preserves I q -> preserves I (ifndef x p q).
Proof.
  intros Hb Hq s H. unfold ifndef. destruct H as [Hd HP].
  rewrite Hd, Hb. apply Hq. by split.
Qed.

End Invariant.

(** Goes through a header under an invariant; [tac] is for what is known of
    the included files. *)
Ltac preserves_tac tac :=
  repeat first
    [ assumption
    | apply preserves_skip
    | apply preserves_seq
    | apply preserves_proto; exact I
    | apply preserves_define; [discriminate | first [exact I | discriminate]]
    | apply preserves_include; [tac | first [exact I | discriminate]]
    | apply preserves_ifndef_defined; [reflexivity |]
    | apply preserves_ifndef ].

(** Steps back over the directives after the one that is looked for. *)
Ltac step_back :=
  first
    [ apply monotone_define
    | apply monotone_emit
    | apply monotone_include
    | apply registry_header_monotone
    | apply monotone_ifndef; [monotone_tac | monotone_tac |] ].

Ltac back_to x :=
  repeat (lazymatch goal with
          | |- _ ∈ out (ifndef x _ _ _) => fail
          | _ => idtac
          end; step_back).

Section WindowsUserHeader.

Variable sys : string -> gmap string macro -> gmap string macro.

(** X3.  Every prototype of the two Windows headers carries the same two
    markers, [MOSAPI] and [MOSCConv], and a function that takes an
    operation context takes it as its first parameter and only there. *)
Theorem prototypes_are_uniform (M : gmap string macro) :
  forall attrs ret name params,
    IProto attrs ret name params ∈ out (mos_os_Windows_user_h sys (start M)) \/
    IProto attrs ret name params ∈ out (mos_registry_Windows_h sys (start M)) ->
    attrs = ["MOSAPI"; "MOSCConv"] /\
    existsb is_context (tail params) = false.
Proof.
  assert (Hr : emits_only well_formed_proto (mos_registry_Windows_h sys)).
  { unfold mos_registry_Windows_h. emits_only_tac; split; reflexivity. }
  assert (Hu : emits_only well_formed_proto (mos_os_Windows_user_h sys)).
  { unfold mos_os_Windows_user_h. emits_only_tac; split; reflexivity. }
  intros attrs ret name params [Hin | Hin].
  - exact (emits_only_start _ _ _ _ Hu Hin).
  - exact (emits_only_start _ _ _ _ Hr Hin).
Qed.

Lemma windows_header_macros M :
  M !! "_MOS_OS_WINDOWS_USER_H_" = None ->
  let T := macros (mos_os_Windows_user_h sys (start M)) in
  T !! "srandom" = Some (MFun ["x"] (EParen (ECall "srand" [EId "x"]))) /\
  T !! "random" = Some (MFun [] (EParen (ECall "rand" []))) /\
  T !! "stat" =
    Some (MFun ["fn"; "st"]
            (ECall "_stat"
               [EId "fn"; ECast (TPtr (TStruct "_stat")) (EId "st")])).
Proof.
  intros Hg T. subst T.
  repeat split;
    unfold mos_os_Windows_user_h, ifndef at 1;
    rewrite (proj2 (not_defined_start _ _) Hg); rewrite !seq_apply;
    unfold ifndef at 1, proto, skip;
    match goal with
    | |- context [if is_defined "va_copy" ?s then _ else _] =>
        destruct (is_defined "va_copy" s)
    end; cpp_lookup; reflexivity.
Qed.

(** X4.  After the user header the BSD names are macros for what Windows
    has, whatever the system headers made of those names.  For arguments
    that name no macro, and where [srand], [rand] and [_stat] are functions
    and not macros, [srandom(e)] is [(srand(e))], [random()] is [(rand())],
    and [stat(f, b)] is [_stat] of [f] and of [b] cast to
    [struct _stat *]; nothing in these results is left to expand. *)
Theorem windows_macros_expand (M : gmap string macro) :
  M !! "_MOS_OS_WINDOWS_USER_H_" = None ->
  let T := macros (mos_os_Windows_user_h sys (start M)) in
  (forall e, T !! "srand" = None -> macro_free T e ->
     expand_call T "srandom" [e] = Some (EParen (ECall "srand" [e])) /\
     macro_free T (EParen (ECall "srand" [e]))) /\
  (T !! "rand" = None ->
     expand_call T "random" [] = Some (EParen (ECall "rand" [])) /\
     macro_free T (EParen (ECall "rand" []))) /\
  (forall f b, T !! "_stat" = None -> macro_free T f -> macro_free T b ->
     expand_call T "stat" [f; b] =
       Some (ECall "_stat" [f; ECast (TPtr (TStruct "_stat")) b]) /\
     macro_free T (ECall "_stat" [f; ECast (TPtr (TStruct "_stat")) b])).
Proof.
  intros Hg T. destruct (windows_header_macros M Hg) as (H1 & H2 & H3).
  fold T in H1, H2, H3. unfold expand_call, macro_free.
  rewrite H1, H2, H3. split; [|split].
  - intros e Hsrand He. split; [done|]. simpl.
    constructor; [done|]. by rewrite app_nil_r.
  - intros Hrand. split; [done|]. simpl. by constructor.
  - intros f b Hstat Hf Hb. split; [done|]. simpl.
    constructor; [done|]. apply Forall_app. split; [done|].
    rewrite app_nil_r. by constructor.
Qed.

(** The state in which the user header tests [x], for an [x] that no
    directive before the test defines and no included file touches. *)
Lemma windows_header_va_copy_test M :
  (forall f, keeps sys f "va_copy") ->
  forall s0,
    s0 = define "random" (MFun [] (EParen (ECall "rand" [])))
           (define "srandom" (MFun ["x"] (EParen (ECall "srand" [EId "x"])))
              (mos_registry_Windows_h sys
                 (include sys "winnt.h"
                    (ifndef "EXCLUDE_INT_LIMIT_DEFS"
                       (include sys "ntintsafe.h") skip
                       (include sys "wtypes.h"
                          (include sys "process.h"
                             (include sys "time.h"
                                (include sys "errno.h"
                                   (include sys "stdlib.h"
                                      (include sys "stdio.h"
                                         (include sys "sys/stat.h"
                                            (define "_MOS_OS_WINDOWS_USER_H_"
                                               MFlag (start M))))))))))))) ->
    is_defined "va_copy" s0 = is_defined "va_copy" (start M).
Proof.
  intros Hk s0 ->. cpp_back ltac:(by auto).
  rewrite (registry_header_transparent sys "va_copy") by (discriminate || auto).
  cpp_back ltac:(by auto). reflexivity.
Qed.

(** X5.  [va_copy] is the one macro the user header tests before it defines
    it: a build that has a [va_copy] keeps its own, and a build that has
    none gets the assignment. *)
Theorem va_copy_defined_only_if_absent (M : gmap string macro) :
  (forall f, keeps sys f "va_copy") ->
  M !! "_MOS_OS_WINDOWS_USER_H_" = None ->
  let s := mos_os_Windows_user_h sys (start M) in
  (is_Some (M !! "va_copy") -> ~ defines "va_copy" s) /\
  (M !! "va_copy" = None ->
     defines "va_copy" s /\
     macros s !! "va_copy" =
       Some (MFunText ["dst"; "src"] "do { (dst) = (src); } while (0)")).
Proof.
  intros Hk Hg s. subst s. split.
  - intros Hva (m & Hin).
    assert (Hp : preserves
              (fun s => is_defined "va_copy" s = true /\
                        Forall (not_define "va_copy") (out s))
              (mos_os_Windows_user_h sys)).
    { unfold mos_os_Windows_user_h, mos_registry_Windows_h.
      preserves_tac ltac:(by auto). }
    destruct (Hp (start M)) as [_ HP].
    { split; [by apply is_defined_start | constructor]. }
    rewrite Forall_forall in HP. by apply (HP _ Hin).
  - intros Hva.
    split;
      unfold mos_os_Windows_user_h, ifndef at 1;
      rewrite (proj2 (not_defined_start _ _) Hg); rewrite !seq_apply;
      match goal with
      | |- context [ifndef "va_copy" _ _ ?s] =>
          pose proof (windows_header_va_copy_test M Hk s eq_refl) as Htest
      end;
      rewrite (proj2 (not_defined_start _ _) Hva) in Htest.
    + eexists. unfold proto. back_to "va_copy".
      unfold ifndef at 1. rewrite Htest. apply elem_of_out_define_here.
    + unfold ifndef at 1, proto. rewrite Htest. cpp_lookup. reflexivity.
Qed.

(** X6.  [<ntintsafe.h>] is left out exactly in the builds that define
    [EXCLUDE_INT_LIMIT_DEFS]. *)
Theorem ntintsafe_left_out_on_request (M : gmap string macro) :
  (forall f, keeps sys f "EXCLUDE_INT_LIMIT_DEFS") ->
  M !! "_MOS_OS_WINDOWS_USER_H_" = None ->
  IInclude "ntintsafe.h" ∈ out (mos_os_Windows_user_h sys (start M)) <->
  M !! "EXCLUDE_INT_LIMIT_DEFS" = None.
Proof.
  intros Hk Hg. split.
  - intros Hin. destruct (M !! "EXCLUDE_INT_LIMIT_DEFS") eqn:Hex; [|done].
    exfalso.
    assert (Hp : preserves
              (fun s => is_defined "EXCLUDE_INT_LIMIT_DEFS" s = true /\
                        Forall (not_include "ntintsafe.h") (out s))
              (mos_os_Windows_user_h sys)).
    { unfold mos_os_Windows_user_h, mos_registry_Windows_h.
      preserves_tac ltac:(by auto). }
    destruct (Hp (start M)) as [_ HP].
    { split; [apply is_defined_start; by rewrite Hex | constructor]. }
    rewrite Forall_forall in HP. by apply (HP _ Hin).
  - intros Hex. unfold mos_os_Windows_user_h, ifndef at 1.
    rewrite (proj2 (not_defined_start _ _) Hg). rewrite !seq_apply.
    unfold proto. back_to "EXCLUDE_INT_LIMIT_DEFS".
    unfold ifndef. cpp_back ltac:(by auto).
    rewrite (proj2 (not_defined_start _ _) Hex).
    apply elem_of_out_include_here.
Qed.

End WindowsUserHeader.

(** ** The types of the WDK build and the value of [NAN] *)

Section WdkBuild.

Variable sys : string -> gmap string macro -> gmap string macro.
Variable M : gmap string macro.
Hypothesis Hguard : M !! "_MOS_BASE_TYPES_WIN_H_" = None.
Hypothesis Hwdk : is_Some (M !! "WIN_WDK").




End WdkBuild.

Section NanValue.

Variable sys : string -> gmap string macro -> gmap string macro.
Hypothesis Hsys : stdint_leaves_tests sys.
Variable M : gmap string macro.
Hypothesis Hguard : M !! "_MOS_BASE_TYPES_WIN_H_" = None.
Hypothesis Hnan : M !! "NAN" = None.

Lemma basic_types_NAN :
  macros (mos_basic_types_win_h sys (start M)) !! "NAN" =
    Some (MObj (EParen (EDeref (ECast (TPtr (TConst TFloat)) (EId "__nan"))))).
Proof.
  destruct Hsys as (H1 & H2 & H3).
  unfold mos_basic_types_win_h, ifndef at 1.
  rewrite (proj2 (not_defined_start _ _) Hguard).
  pose proof (proj2 (not_defined_start _ _) Hnan) as Hn.
  unfold seq, ifndef, ifdef, typedef, static_const, skip.
  cpp_defined.
  destruct (is_defined "WIN_WDK" (start M)); cpp_defined;
  destruct (is_defined "ssize_t" (start M)); cpp_defined;
  try (destruct (is_defined "_WIN64" (start M)); cpp_defined);
  rewrite Hn; cpp_lookup; reflexivity.
Qed.

(** X8.  The [NAN] of the header is a NaN.  Where [unsigned long] has four
    bytes, as on Windows, the [float] read through the macro has all 32
    bits set in either byte order, which IEEE 754 reads as a NaN; the same
    bits are read from eight-byte longs in little-endian order. *)
Theorem NAN_reads_a_NaN (big_endian : bool) :
  let s := mos_basic_types_win_h sys (start M) in
  read_float_macro (macros s) (out s) big_endian 4 "NAN" = Some 0xffffffff%Z /\
  read_float_macro (macros s) (out s) false 8 "NAN" = Some 0xffffffff%Z /\
  is_nan32 0xffffffff = true.
Proof.
  intros s. subst s. unfold read_float_macro.
  rewrite basic_types_NAN, (basic_types_out sys Hsys M Hguard).
  rewrite (proj2 (not_defined_start _ _) Hnan).
  destruct (is_defined "WIN_WDK" (start M)), (is_defined "ssize_t" (start M)),
    (is_defined "_WIN64" (start M)), big_endian;
    repeat split; vm_compute; reflexivity.
Qed.

End NanValue.

(** * The further properties at work on the sample platform *)

Lemma sample_sys_keeps_other f x :
  bool_decide (x ∈ ["MOSCConv"; "MOSAPI"; "INT64_MAX"; "INT32_MAX"]) = false ->
  keeps sample_sys f x.
Proof. intros H. apply sample_sys_keeps. by apply bool_decide_eq_false in H. Qed.

Lemma sample_sys_keeps_guards f g :
  g ∈ include_guards -> keeps sample_sys f g.
Proof.
  intros Hg. apply sample_sys_keeps_other. unfold include_guards in Hg.
  repeat (apply elem_of_cons in Hg as [-> | Hg]; [reflexivity |]).
  by apply elem_of_nil in Hg.
Qed.

Lemma sample_mem_allocated_within (a : Z) (n : nat) :
  (100 <= a)%Z -> (a + Z.of_nat n <= 105)%Z -> allocated sample_mem a n.
Proof.
  intros Ha Hn i Hi.
  assert (H : (a + Z.of_nat i = 100 \/ a + Z.of_nat i = 101 \/
               a + Z.of_nat i = 102 \/ a + Z.of_nat i = 103 \/
               a + Z.of_nat i = 104)%Z) by lia.
  destruct H as [-> | [-> | [-> | [-> | ->]]]]; eexists; vm_compute;
    reflexivity.
Qed.

Lemma headers_are_idempotent_witness :
  mos_os_Windows_user_h sample_sys
    (mos_os_Windows_user_h sample_sys (start ∅))
  = mos_os_Windows_user_h sample_sys (start ∅).
Proof.
  apply (headers_are_idempotent sample_sys sample_sys_keeps_guards (start ∅)).
Defined.

(** A user build, with the registry header read first. *)
Lemma registry_functions_declared_once_witness :
  proto_names
    (out (mos_os_Windows_user_h sample_sys
            (mos_registry_Windows_h sample_sys (start ∅))))
  = ["mos_registry_getmachinevalue"; "mos_registry_getu32";
     "mos_registry_setmachinevalue"; "mos_windows_error_to_err";
     "mos_windows_error"; "mos_windows_wsa_error_to_err";
     "mos_windows_wsa_error"; "mos_windows_strerror"].
Proof.
  exact (proj1 (proj2 (registry_functions_declared_once sample_sys
           (fun f => sample_sys_keeps_other f "_MOS_REGISTRY_WINDOWS_H_" eq_refl)
           (fun f => sample_sys_keeps_other f "_MOS_OS_WINDOWS_USER_H_" eq_refl)
           (fun f => sample_sys_keeps_other f "_KERNEL" eq_refl)
           ∅ (lookup_empty _) (lookup_empty _)))).
Defined.

Lemma prototypes_are_uniform_witness :
  MOSAPI_MOSCConv = ["MOSAPI"; "MOSCConv"] /\
  existsb is_context (tail [TNamed "DWORD"; TPtr TChar; TNamed "size_t"]) = false.
Proof.
  apply (prototypes_are_uniform sample_sys ∅ _ const_char_ptr
           "mos_windows_strerror").
  left. apply windows_header_declares_strerror. apply lookup_empty.
Defined.

Lemma windows_macros_expand_witness :
  expand_call (macros (mos_os_Windows_user_h sample_sys (start ∅))) "srandom"
    [ENum 42] = Some (EParen (ECall "srand" [ENum 42])) /\
  macro_free (macros (mos_os_Windows_user_h sample_sys (start ∅)))
    (EParen (ECall "srand" [ENum 42])).
Proof.
  apply (windows_macros_expand sample_sys ∅ (lookup_empty _)).
  - vm_compute. reflexivity.
  - constructor.
Defined.

(** An argument that is itself a macro invocation is outside that
    property: the preprocessor expands it before it is put in. *)
Example macro_invocation_is_not_macro_free :
  ~ macro_free (macros (mos_os_Windows_user_h sample_sys (start ∅)))
      (ECall "random" []).
Proof.
  intros H. apply Forall_cons in H as [H _]. vm_compute in H. discriminate H.
Qed.

(** A build with a [va_copy] of the compiler, and one without. *)
Lemma va_copy_defined_only_if_absent_witness :
  ~ defines "va_copy"
      (mos_os_Windows_user_h sample_sys
         (start {[ "va_copy" :=
                     MFunText ["d"; "s"] "__builtin_va_copy(d, s)" ]})) /\
  defines "va_copy" (mos_os_Windows_user_h sample_sys (start ∅)).
Proof.
  split.
  - apply (va_copy_defined_only_if_absent sample_sys
             {[ "va_copy" := MFunText ["d"; "s"] "__builtin_va_copy(d, s)" ]}
             (fun f => sample_sys_keeps_other f "va_copy" eq_refl)).
    + vm_compute. reflexivity.
    + eexists. vm_compute. reflexivity.
  - apply (va_copy_defined_only_if_absent sample_sys ∅
             (fun f => sample_sys_keeps_other f "va_copy" eq_refl));
      vm_compute; reflexivity.
Defined.

Lemma ntintsafe_left_out_on_request_witness :
  IInclude "ntintsafe.h" ∈ out (mos_os_Windows_user_h sample_sys (start ∅)).
Proof.
  apply (ntintsafe_left_out_on_request sample_sys ∅
           (fun f => sample_sys_keeps_other f "EXCLUDE_INT_LIMIT_DEFS"
                       eq_refl));
    vm_compute; reflexivity.
Defined.


Lemma NAN_reads_a_NaN_witness :
  read_float_macro
    (macros (mos_basic_types_win_h sample_sys (start ∅)))
    (out (mos_basic_types_win_h sample_sys (start ∅))) true 4 "NAN"
  = Some 0xffffffff%Z.
Proof.
  apply (NAN_reads_a_NaN sample_sys sample_sys_leaves_tests ∅
           (lookup_empty _) (lookup_empty _) true).
Defined.

(** Two bytes from 103 to 100. *)
Lemma bcopy_copies_disjoint_ranges_witness :
  exists m',
    invoke (macros (mos_os_SunOS_user_h sample_sys (start ∅))) "bcopy"
      [ENum 103; ENum 100; ENum 2] ∅ sample_mem = Some (100%Z, m') /\
    load_bytes m' 100 2 = load_bytes sample_mem 103 2.
Proof.
  destruct (bcopy_copies_disjoint_ranges sample_sys ∅ (lookup_empty _) ∅
              sample_mem 103 100 2) as (m' & H1 & H2 & _).
  - lia.
  - apply sample_mem_allocated_within; simpl; lia.
  - apply sample_mem_allocated_within; simpl; lia.
  - lia.
  - exists m'. split; [exact H1 | exact H2].
Defined.

Lemma bzero_clears_allocated_range_witness :
  exists m',
    invoke (macros (mos_os_SunOS_user_h sample_sys (start ∅))) "bzero"
      [ENum 101; ENum 3] ∅ sample_mem = Some (101%Z, m') /\
    load_bytes m' 101 3 = Some [0; 0; 0]%Z.
Proof.
  destruct (bzero_clears_allocated_range sample_sys ∅ (lookup_empty _) ∅
              sample_mem 101 3) as (m' & H1 & H2 & _).
  - lia.
  - apply sample_mem_allocated_within; simpl; lia.
  - exists m'. split; [exact H1 | exact H2].
Defined.

(** A copy of three bytes one byte up. *)
Lemma bcopy_of_overlapping_ranges_undefined_witness :
  invoke (macros (mos_os_SunOS_user_h sample_sys (start ∅))) "bcopy"
    [ENum 100; ENum 101; ENum 3] ∅ sample_mem = None.
Proof.
  apply (bcopy_of_overlapping_ranges_undefined sample_sys ∅ (lookup_empty _)).
  lia.
Defined.

Lemma zero_length_is_no_operation_witness :
  invoke (macros (mos_os_SunOS_user_h sample_sys (start ∅))) "bcopy"
    [ENum 7; ENum 9; ENum 0] ∅ sample_mem = Some (9%Z, sample_mem).
Proof.
  apply (zero_length_is_no_operation sample_sys ∅ (lookup_empty _) ∅
           sample_mem 7 9 0).
Defined.

(** Two bytes from 103 to 100 and back. *)
Lemma bcopy_back_changes_nothing_witness :
  match invoke (macros (mos_os_SunOS_user_h sample_sys (start ∅))) "bcopy"
          [ENum 103; ENum 100; ENum 2] ∅ sample_mem with
  | Some (_, m1) =>
      invoke (macros (mos_os_SunOS_user_h sample_sys (start ∅))) "bcopy"
        [ENum 100; ENum 103; ENum 2] ∅ m1 = Some (103%Z, m1)
  | None => False
  end.
Proof.
  destruct (invoke (macros (mos_os_SunOS_user_h sample_sys (start ∅)))
              "bcopy" [ENum 103; ENum 100; ENum 2] ∅ sample_mem)
    as [[r m1]|] eqn:H.
  - exact (bcopy_back_changes_nothing sample_sys ∅ (lookup_empty _) ∅
             sample_mem m1 103 100 2 r H).
  - vm_compute in H. discriminate H.
Defined.
